(** * Okta gateway utilities: response normalisation, pagination walk and
      request admission

    A shallow embedding of
    - [okta_mcp/utils/normalize_okta_responses.py]
      ([normalize_okta_response], [paginate_okta_response]) and
    - [okta_mcp/utils/request_manager.py] ([RequestManager]),
    together with the properties the specification states about them. *)

From Stdlib Require Import ZArith List Ascii String Bool Lia Sorted.
From stdpp Require Import base option list sorting strings gmap pretty.

Set Warnings "-register-all".
Open Scope Z_scope.

(** ** Python values *)

(** Exception instances.  [except Exception] catches every class below but
    [BaseOnly], which stands for the classes deriving from [BaseException]
    alone (task cancellation, interpreter exit, keyboard interrupt). *)
Inductive exn : Type :=
| TypeError (msg : string)
| ValueError (msg : string)
| OtherException (cls msg : string)
| BaseOnly (cls : string).

Definition is_Exception (e : exn) : bool :=
  match e with
  | BaseOnly _ => false
  | _ => true
  end.

(** The fragment of Python's value universe the two helpers inspect: they
    test for [None], tuples and their length, truthiness, iterability and
    the presence of attributes.  [PObj] is a plain instance, given by its
    attribute dictionary. *)
Inductive pyval : Type :=
| PNone
| PBool (b : bool)
| PInt (z : Z)
| PStr (s : string)
| PTuple (l : list pyval)
| PList (l : list pyval)
| PExc (e : exn)
| PObj (attrs : gmap string pyval).

(** Result of evaluating a Python expression: a value or a raised
    exception. *)
Inductive outcome (A : Type) : Type :=
| Ret (a : A)
| Raise (e : exn).
Arguments Ret {A} a.
Arguments Raise {A} e.

(** [bool(v)].  A plain instance and an exception instance define neither
    [__bool__] nor [__len__], so they are truthy. *)
Definition truthy (v : pyval) : bool :=
  match v with
  | PNone => false
  | PBool b => b
  | PInt z => negb (z =? 0)
  | PStr s => negb (String.eqb s "")
  | PTuple l | PList l => negb (Nat.eqb (length l) 0)
  | PExc _ => true
  | PObj _ => true
  end.

(** [hasattr(v, name)] for the names the helpers probe ([as_dict],
    [has_next]); only instances carry them. *)
Definition py_hasattr (v : pyval) (name : string) : bool :=
  match v with
  | PObj attrs => bool_decide (is_Some (attrs !! name))
  | _ => false
  end.

(** [getattr(v, name, dflt)]. *)
Definition py_getattr (v : pyval) (name : string) (dflt : pyval) : pyval :=
  match v with
  | PObj attrs => default dflt (attrs !! name)
  | _ => dflt
  end.

(** [type(v).__name__], as it appears in interpreter error messages. *)
Definition py_type_name (v : pyval) : string :=
  match v with
  | PNone => "NoneType"
  | PBool _ => "bool"
  | PInt _ => "int"
  | PStr _ => "str"
  | PTuple _ => "tuple"
  | PList _ => "list"
  | PExc _ => "Exception"
  | PObj _ => "object"
  end.

(** [iter(v)] run to exhaustion: the elements of a list or tuple, the
    one-character strings of a string; every other value of the fragment
    raises [TypeError]. *)
Definition py_iter (v : pyval) : outcome (list pyval) :=
  match v with
  | PTuple l | PList l => Ret l
  | PStr s => Ret (map (fun c => PStr (String c EmptyString)) (list_ascii_of_string s))
  | _ => Raise (TypeError ("'" ++ py_type_name v ++ "' object is not iterable"))
  end.

(** Tuple assignment [a, b = v]. *)
Definition py_unpack2 (v : pyval) : outcome (pyval * pyval) :=
  match py_iter v with
  | Raise _ =>
      Raise (TypeError ("cannot unpack non-iterable " ++ py_type_name v ++ " object"))
  | Ret [a; b] => Ret (a, b)
  | Ret (_ :: _ :: _ :: _) =>
      Raise (ValueError "too many values to unpack (expected 2)")
  | Ret _ => Raise (ValueError "not enough values to unpack (expected 2)")
  end.

(** ** [normalize_okta_response] *)

Section Normalize.

(** [str(v)], as an f-string interpolates it.  The text of an instance
    depends on its class and address, so the formatter stays abstract. *)
Variable py_format : pyval -> string.

Definition normalize_okta_response (response : pyval) : pyval :=
  match response with
  | PTuple l =>
      if Nat.eqb (length l) 3 then response
      else if Nat.eqb (length l) 2 then
        let results := nth 0 l PNone in
        let resp := nth 1 l PNone in
        PTuple [results; resp; PNone]
      else
        PTuple [PNone; PNone;
                PExc (ValueError ("Unexpected response format: " ++ py_format response))]
  | _ => PTuple [response; py_getattr response "response" PNone; PNone]
  end.

(** The case definition of the specification (section 4.2 and the
    bare-object scenario of section 8), word for word: a shape error
    carries the element count, a bare value is wrapped in a one-element
    sequence. *)
Definition spec_normalize (response : pyval) : pyval :=
  match response with
  | PTuple [items; cursor; error] => PTuple [items; cursor; error]
  | PTuple [items; cursor] => PTuple [items; cursor; PNone]
  | PTuple l =>
      PTuple [PNone; PNone;
              PExc (OtherException "UnexpectedShapeError" (pretty (length l)))]
  | _ => PTuple [PList [response]; py_getattr response "response" PNone; PNone]
  end.

(** The case definition that the code meets: the shape error is a
    [ValueError] whose text embeds the offending tuple, and a bare value
    is passed on as it is. *)
Definition cases_normalize (response : pyval) : pyval :=
  match response with
  | PTuple [items; cursor; error] => PTuple [items; cursor; error]
  | PTuple [items; cursor] => PTuple [items; cursor; PNone]
  | PTuple l =>
      PTuple [PNone; PNone;
              PExc (ValueError ("Unexpected response format: " ++ py_format (PTuple l)))]
  | _ => PTuple [response; py_getattr response "response" PNone; PNone]
  end.

End Normalize.

(** ** [paginate_okta_response] *)

(** The paged response of the SDK is a stateful object: [has_next()] and
    [next()] read and advance a position that the caller never sees.  A
    cursor is given by a state type and the two methods as functions of
    that state; either of them may return any value or raise. *)
Record cursor (St : Type) : Type := {
  has_next : St -> outcome pyval * St;
  next : St -> outcome pyval * St
}.
Arguments has_next {St} c s.
Arguments next {St} c s.

(** What [initial_resp] may be: a value without methods of its own
    ([None], a plain instance), or the live paged response. *)
Inductive response : Type :=
| RespValue (v : pyval)
| RespPaged.

(** Calls made on the paged response, with what they gave. *)
Inductive event : Type :=
| EvHasNext (r : outcome pyval)
| EvNext (r : outcome pyval).

Record world (St : Type) : Type := {
  cur : St;
  trace : list event
}.
Arguments cur {St} w.
Arguments trace {St} w.

(** Local variables of the walk that the loop updates. *)
Record frame : Type := {
  page_count : Z;
  all_results : list pyval
}.

(** How the [try] statement around the loop is left. *)
Inductive loop_result : Type :=
| LoopExit (f : frame)
| LoopRaise (e : exn).

Definition resp_truthy (r : response) : bool :=
  match r with
  | RespValue v => truthy v
  | RespPaged => true
  end.

Definition resp_hasattr (r : response) (name : string) : bool :=
  match r with
  | RespValue v => py_hasattr v name
  | RespPaged => true
  end.

(** [[r for r in items if r and hasattr(r, 'as_dict')]]. *)
Definition valid_items (items : list pyval) : list pyval :=
  List.filter (fun r => truthy r && py_hasattr r "as_dict") items.

(** [except Exception as e]: the handler logs and the function goes on
    after the [try]; any other exception leaves the function. *)
Definition except_Exception {St : Type} (e : exn) (f : frame) (w : world St)
  : option (loop_result * world St) :=
  if is_Exception e then Some (LoopExit f, w) else Some (LoopRaise e, w).

Section Walker.

Context {St : Type} (ops : cursor St).

(** [response.has_next()]. *)
Definition call_has_next (r : response) (w : world St) : outcome pyval * world St :=
  match r with
  | RespPaged =>
      let (res, s') := has_next ops (cur w) in
      (res, {| cur := s'; trace := trace w ++ [EvHasNext res] |})
  | RespValue v =>
      (Raise (TypeError ("'" ++ py_type_name (py_getattr v "has_next" PNone)
                             ++ "' object is not callable")), w)
  end.

(** [await response.next()]. *)
Definition call_next (r : response) (w : world St) : outcome pyval * world St :=
  match r with
  | RespPaged =>
      let (res, s') := next ops (cur w) in
      (res, {| cur := s'; trace := trace w ++ [EvNext res] |})
  | RespValue v =>
      if py_hasattr v "next" then
        (Raise (TypeError ("'" ++ py_type_name (py_getattr v "next" PNone)
                               ++ "' object is not callable")), w)
      else
        (Raise (OtherException "AttributeError"
                  ("'" ++ py_type_name v ++ "' object has no attribute 'next'")), w)
  end.

(** The [while] loop inside the [try] (lines 57-80).  [fuel] bounds the
    number of iterations unfolded; [None] means it ran out. *)
Fixpoint walk (fuel : nat) (max_pages : Z) (resp : response) (f : frame) (w : world St)
  : option (loop_result * world St) :=
  match fuel with
  | O => None
  | S fuel' =>
      if negb (page_count f <? max_pages) then Some (LoopExit f, w)
      else if negb (resp_truthy resp) then Some (LoopExit f, w)
      else if negb (resp_hasattr resp "has_next") then Some (LoopExit f, w)
      else
        match call_has_next resp w with
        | (Raise e, w1) => except_Exception e f w1
        | (Ret more, w1) =>
            if negb (truthy more) then Some (LoopExit f, w1)
            else
              let f1 := {| page_count := page_count f + 1;
                           all_results := all_results f |} in
              match call_next resp w1 with
              | (Raise e, w2) => except_Exception e f1 w2
              | (Ret raw, w2) =>
                  match py_unpack2 raw with
                  | Raise e => except_Exception e f1 w2
                  | Ret (next_users, next_err) =>
                      if truthy next_err then Some (LoopExit f1, w2)
                      else
                        match py_iter next_users with
                        | Raise e => except_Exception e f1 w2
                        | Ret users =>
                            let valid_users := valid_items users in
                            walk fuel' max_pages resp
                              {| page_count := page_count f1;
                                 all_results := all_results f1 ++ valid_users |} w2
                        end
                  end
              end
        end
  end.

(** [max_pages] is the module constant [DEFAULT_PAGINATION_LIMIT], read
    from the environment when the module is loaded. *)
Definition paginate_okta_response (fuel : nat) (max_pages : Z)
    (initial_results : pyval) (initial_resp : response) (initial_err : pyval)
    (w : world St)
  : option (outcome (pyval * response * pyval * Z) * world St) :=
  if truthy initial_err then
    Some (Ret (initial_results, initial_resp, initial_err, 1), w)
  else
    match py_iter initial_results with
    | Raise e => Some (Raise e, w)
    | Ret items =>
        let all_results0 := valid_items items in
        match walk fuel max_pages initial_resp
                {| page_count := 1; all_results := all_results0 |} w with
        | None => None
        | Some (LoopRaise e, w') => Some (Raise e, w')
        | Some (LoopExit f, w') =>
            Some (Ret (PList (all_results f), initial_resp, PNone, page_count f), w')
        end
    end.

(** The cursor hands out [pages] one after the other from state [s]:
    each time [has_next()] is truthy and [next()] returns a pair of an
    iterable and a falsy error.  [evs] are the calls made, [s'] the state
    reached. *)
Inductive serves : St -> list (list pyval) -> list event -> St -> Prop :=
| serves_nil : forall s, serves s [] [] s
| serves_cons : forall s more s1 raw s2 next_users next_err users pages evs s3,
    has_next ops s = (Ret more, s1) ->
    truthy more = true ->
    next ops s1 = (Ret raw, s2) ->
    py_unpack2 raw = Ret (next_users, next_err) ->
    truthy next_err = false ->
    py_iter next_users = Ret users ->
    serves s2 pages evs s3 ->
    serves s (users :: pages)
           (EvHasNext (Ret more) :: EvNext (Ret raw) :: evs) s3.

End Walker.

(** A fetch that reports a failure: [next()] raises an [Exception], or
    returns a pair whose error slot is truthy. *)
Definition page_error (r : outcome pyval) : bool :=
  match r with
  | Raise e => is_Exception e
  | Ret raw =>
      match py_unpack2 raw with
      | Ret (_, next_err) => truthy next_err
      | Raise _ => false
      end
  end.

Definition is_next (ev : event) : bool :=
  match ev with
  | EvNext _ => true
  | EvHasNext _ => false
  end.

(** Number of [next()] calls in a trace. *)
Definition count_next (evs : list event) : nat :=
  length (List.filter is_next evs).

(** An event after which the loop is left. *)
Definition stops_walk (ev : event) : bool :=
  match ev with
  | EvHasNext (Ret more) => negb (truthy more)
  | EvHasNext (Raise _) => true
  | EvNext (Raise _) => true
  | EvNext (Ret raw) =>
      match py_unpack2 raw with
      | Raise _ => true
      | Ret (next_users, next_err) =>
          truthy next_err || match py_iter next_users with
                             | Raise _ => true
                             | Ret _ => false
                             end
      end
  end.

(** Whether a trace is that of a walk that stops at the first reason to
    stop and not before.  With no fetch left in the [budget] no call is
    made.  Otherwise the walk asks [has_next()]; it ends there when the
    answer says so, else it calls [next()]; it ends there when the fetch
    fails, else it goes on with one fetch less in the budget. *)
Fixpoint stops_first (budget : nat) (evs : list event) : bool :=
  match budget with
  | O =>
      match evs with
      | [] => true
      | _ :: _ => false
      end
  | S budget' =>
      match evs with
      | [EvHasNext r] => stops_walk (EvHasNext r)
      | EvHasNext (Ret more) :: EvNext r :: rest =>
          truthy more
          && (if stops_walk (EvNext r) then
                match rest with
                | [] => true
                | _ :: _ => false
                end
              else stops_first budget' rest)
      | _ => false
      end
  end.

(** The items that a call handed to the walk: those of a page fetched
    without error, none for any other call. *)
Definition page_items (ev : event) : list pyval :=
  match ev with
  | EvNext (Ret raw) =>
      match py_unpack2 raw with
      | Ret (next_users, next_err) =>
          if truthy next_err then []
          else
            match py_iter next_users with
            | Ret users => users
            | Raise _ => []
            end
      | Raise _ => []
      end
  | _ => []
  end.

(** All the items fetched along a trace, in the order of the calls. *)
Definition fetched_items (evs : list event) : list pyval :=
  flat_map page_items evs.

(** *** A scripted cursor, for concrete walks *)

Inductive page : Type :=
| PageItems (items : list pyval)
| PageError (e : exn)
| PageRaises (e : exn).

(** The state is the list of pages still to come; [has_next()] tells
    whether one is left and [next()] hands out the first. *)
Definition scripted : cursor (list page) := {|
  has_next := fun s => (Ret (PBool (negb (Nat.eqb (length s) 0))), s);
  next := fun s =>
    match s with
    | [] => (Raise (OtherException "StopAsyncIteration" ""), [])
    | PageItems items :: rest => (Ret (PTuple [PList items; PNone]), rest)
    | PageError e :: rest => (Ret (PTuple [PNone; PExc e]), rest)
    | PageRaises e :: rest => (Raise e, rest)
    end
|}.

(** An SDK model instance: it has an [as_dict] method and an [id]. *)
Definition item (i : Z) : pyval :=
  PObj (<["as_dict" := PStr "<bound method>"]> (<["id" := PInt i]> ∅)).

(** Ten items numbered from [base]. *)
Definition ten_items (base : Z) : list pyval :=
  map (fun k => item (base + Z.of_nat k)) (seq 0 10).

Definition start (s : list page) : world (list page) :=
  {| cur := s; trace := [] |}.

(** ** [RequestManager] *)

(** The fields of the class.  The [asyncio.Lock] is not a field of the
    model: the two blocks it guards are the atomic steps below.  A queue
    entry is the number of the call it describes. *)
Record RequestManager : Type := {
  concurrent_limit : Z;
  active_requests : Z;
  request_queue : list nat
}.

(** [__init__]. *)
Definition new_manager (limit : Z) : RequestManager :=
  {| concurrent_limit := limit; active_requests := 0; request_queue := [] |}.

(** The locked block of [execute] (lines 56-64): take a slot, or join the
    queue.  The boolean is [can_execute]. *)
Definition acquire_slot (m : RequestManager) (task_desc : nat) : RequestManager * bool :=
  if active_requests m <? concurrent_limit m then
    ({| concurrent_limit := concurrent_limit m;
        active_requests := active_requests m + 1;
        request_queue := request_queue m |}, true)
  else
    ({| concurrent_limit := concurrent_limit m;
        active_requests := active_requests m;
        request_queue := request_queue m ++ [task_desc] |}, false).

(** The locked block of [_release_slot] (lines 87-93): hand the slot to
    the head of the queue, or give it back.  The option is [next_task]. *)
Definition _release_slot (m : RequestManager) : RequestManager * option nat :=
  match request_queue m with
  | next_task :: rest =>
      ({| concurrent_limit := concurrent_limit m;
          active_requests := active_requests m;
          request_queue := rest |}, Some next_task)
  | [] =>
      ({| concurrent_limit := concurrent_limit m;
          active_requests := active_requests m - 1;
          request_queue := [] |}, None)
  end.

(** Where one [execute()] call stands.
    - [Queued]: its descriptor is in the queue, the caller awaits the future;
    - [Promoted]: taken from the queue, [_execute_queued_task] is created
      but has not begun;
    - [Running]: [func] is in flight;
    - [Finished ok]: [func] has returned ([ok = true]) or raised
      ([ok = false]); the [finally] block has not run its locked block yet;
    - [Done ok]: the slot is released. *)
Inductive phase : Type :=
| Queued
| Promoted
| Running
| Finished (ok : bool)
| Done (ok : bool).

(** The manager and the calls submitted so far; call [t] is entry [t] of
    the pool. *)
Record system : Type := {
  manager : RequestManager;
  pool : list phase
}.

Definition boot (limit : Z) : system :=
  {| manager := new_manager limit; pool := [] |}.

(** The atomic steps of the event loop. *)
Inductive label : Type :=
| Submit
| Start (t : nat)
| Finish (t : nat) (ok : bool)
| Release (t : nat).

Definition step (l : label) (s : system) : option system :=
  match l with
  | Submit =>
      let t := length (pool s) in
      let (m', can_execute) := acquire_slot (manager s) t in
      Some {| manager := m';
              pool := pool s ++ [if can_execute then Running else Queued] |}
  | Start t =>
      match pool s !! t with
      | Some Promoted =>
          Some {| manager := manager s; pool := <[t := Running]> (pool s) |}
      | _ => None
      end
  | Finish t ok =>
      match pool s !! t with
      | Some Running =>
          Some {| manager := manager s; pool := <[t := Finished ok]> (pool s) |}
      | _ => None
      end
  | Release t =>
      match pool s !! t with
      | Some (Finished ok) =>
          let (m', next_task) := _release_slot (manager s) in
          let released := <[t := Done ok]> (pool s) in
          Some {| manager := m';
                  pool := match next_task with
                          | Some n => <[n := Promoted]> released
                          | None => released
                          end |}
      | _ => None
      end
  end.

(** A schedule is a list of steps, run from left to right; [None] when a
    step is not enabled. *)
Fixpoint run (ls : list label) (s : system) : option system :=
  match ls with
  | [] => Some s
  | l :: ls' =>
      match step l s with
      | Some s' => run ls' s'
      | None => None
      end
  end.

Definition holds_slot (p : phase) : bool :=
  match p with
  | Promoted | Running | Finished _ => true
  | Queued | Done _ => false
  end.

Definition is_running (p : phase) : bool :=
  match p with
  | Running => true
  | _ => false
  end.

Definition is_done (p : phase) : bool :=
  match p with
  | Done _ => true
  | _ => false
  end.

(** Calls that occupy a slot, and calls whose [func] is executing. *)
Definition slots_held (ps : list phase) : Z :=
  Z.of_nat (length (List.filter holds_slot ps)).

Definition running (ps : list phase) : Z :=
  Z.of_nat (length (List.filter is_running ps)).

Definition is_release (t : nat) (l : label) : bool :=
  match l with
  | Release t' => Nat.eqb t t'
  | _ => false
  end.

(** How often call [t] ran the locked block of [_release_slot]. *)
Definition releases (t : nat) (ls : list label) : nat :=
  length (List.filter (is_release t) ls).

(** What every reachable state satisfies: the counter is the number of
    slots held, and the queue lists distinct calls that are all waiting. *)
Record consistent (s : system) : Prop := {
  counter_is_slots : active_requests (manager s) = slots_held (pool s);
  queue_waiting : Forall (fun t => pool s !! t = Some Queued) (request_queue (manager s));
  queue_distinct : NoDup (request_queue (manager s))
}.

(** ** The specification's statements and scenarios *)

Definition rate_limited : exn :=
  OtherException "OktaAPIError" "E0000047: API call exceeded rate limit".

(** Section 8: five pages of ten items; the first is the initial response,
    the cursor holds the other four, and the third page fails. *)
Definition third_page_fails : list page :=
  [PageItems (ten_items 10); PageError rate_limited;
   PageItems (ten_items 30); PageItems (ten_items 40)].

(** Section 8, first scenario, as the specification expects it to end:
    twenty items, a page count of two, and the page's error handed back
    with them. *)
Definition spec_third_page_scenario : Prop :=
  exists (items : list pyval) (resp : response) (err : pyval) w',
    paginate_okta_response scripted 3 3 (PList (ten_items 0)) RespPaged PNone
      (start third_page_fails)
    = Some (Ret (PList items, resp, err, 2), w')
    /\ length items = 20%nat
    /\ err = PExc rate_limited.

(** Section 4.3: a non-null initial error ends the walk with zero pages
    walked, the error surfaced and no call made. *)
Definition spec_initial_error_zero_pages : Prop :=
  forall (St : Type) (ops : cursor St) (fuel : nat) (max_pages : Z)
         (initial_results : pyval) (initial_resp : response) (initial_err : pyval)
         (w : world St),
    initial_err <> PNone ->
    exists (results : pyval) (resp : response),
      paginate_okta_response ops fuel max_pages initial_results initial_resp
        initial_err w
      = Some (Ret (results, resp, initial_err, 0), w).

(** Section 7: whatever it is given, the walk returns a result. *)
Definition spec_walk_never_crashes : Prop :=
  forall (St : Type) (ops : cursor St) (fuel : nat) (max_pages : Z)
         (initial_results : pyval) (initial_resp : response) (initial_err : pyval)
         (w : world St),
    (Z.to_nat (max_pages - 1) < fuel)%nat ->
    exists v w',
      paginate_okta_response ops fuel max_pages initial_results initial_resp
        initial_err w = Some (Ret v, w').

(** Section 4.3: after a page without items, fetched because [has_next()]
    was true, the loop makes no further [next()] call. *)
Definition spec_stops_on_empty_page : Prop :=
  forall (St : Type) (ops : cursor St) (fuel : nat) (max_pages : Z)
         (f : frame) (w : world St) (s1 s2 : St)
         (more raw next_users next_err : pyval) r w',
    page_count f < max_pages ->
    has_next ops (cur w) = (Ret more, s1) ->
    truthy more = true ->
    next ops s1 = (Ret raw, s2) ->
    py_unpack2 raw = Ret (next_users, next_err) ->
    truthy next_err = false ->
    py_iter next_users = Ret [] ->
    walk ops (S fuel) max_pages RespPaged f w = Some (r, w') ->
    count_next (trace w') = S (count_next (trace w)).

(** A cursor that always claims another page and always fails to fetch
    it. *)
Definition stubborn : cursor nat := {|
  has_next := fun n => (Ret (PBool true), n);
  next := fun n => (Raise (OtherException "RuntimeError" "connection reset"), S n)
|}.

(** Section 8, third scenario: a limit of two and five calls.  All five
    are submitted before any finishes; the second call raises. *)
Definition five_calls : list label :=
  [Submit; Submit; Submit; Submit; Submit;
   Finish 0 true; Release 0; Start 2;
   Finish 1 false; Release 1; Start 3;
   Finish 2 true; Release 2; Start 4;
   Finish 3 true; Release 3;
   Finish 4 true; Release 4].


(** The history [hist] has one [Release t] for every call that is done,
    and none for any other. *)
Definition released_once (hist : list label) (s : system) : Prop :=
  forall t : nat,
    releases t hist = match pool s !! t with
                      | Some (Done _) => 1%nat
                      | _ => 0%nat
                      end.

(** ** More of [RequestManager] *)

(** The two read-only properties of the class. *)
Definition active_count (m : RequestManager) : Z := active_requests m.

Definition queue_size (m : RequestManager) : nat := length (request_queue m).

Definition is_queued (p : phase) : bool :=
  match p with
  | Queued => true
  | _ => false
  end.

(** Calls waiting for a slot, and calls that are over. *)
Definition waiting (ps : list phase) : nat := length (List.filter is_queued ps).

Definition completed (ps : list phase) : nat := length (List.filter is_done ps).

(** What is left for a call to go through, counted in steps. *)
Definition weight (p : phase) : nat :=
  match p with
  | Queued => 4
  | Promoted => 3
  | Running => 2
  | Finished _ => 1
  | Done _ => 0
  end.

Definition remaining (ps : list phase) : nat := list_sum (map weight ps).

(** The step that call [t] can take next, if it holds a slot; a running
    function is taken to return. *)
Definition next_move (t : nat) (p : phase) : option label :=
  match p with
  | Promoted => Some (Start t)
  | Running => Some (Finish t true)
  | Finished _ => Some (Release t)
  | Queued | Done _ => None
  end.

(** The first call of the pool, counted from [t], that holds a slot, with
    its next step. *)
Fixpoint first_move (t : nat) (ps : list phase) : option label :=
  match ps with
  | [] => None
  | p :: ps' =>
      match next_move t p with
      | Some l => Some l
      | None => first_move (S t) ps'
      end
  end.

(** More of what every reachable state satisfies: the queue holds the
    waiting calls, all of them, in the order of their submission, and it
    is empty unless every slot is taken. *)
Record orderly (s : system) : Prop := {
  queue_counts_waiting : queue_size (manager s) = waiting (pool s);
  waiting_in_queue : forall t, pool s !! t = Some Queued -> t ∈ request_queue (manager s);
  queue_in_order : StronglySorted lt (request_queue (manager s));
  queue_only_when_full :
    request_queue (manager s) <> [] ->
    concurrent_limit (manager s) <= active_requests (manager s)
}.

(** ** [error_handling.py] *)

(** A result handed to the helpers: a dictionary with string keys, or any
    other value. *)
Inductive result : Type :=
| ResDict (d : gmap string pyval)
| ResValue (v : pyval).

(** [type(e).__name__]. *)
Definition exn_class (e : exn) : string :=
  match e with
  | TypeError _ => "TypeError"
  | ValueError _ => "ValueError"
  | OtherException cls _ => cls
  | BaseOnly cls => cls
  end.

(** [str(e)] and [e.args] of an exception built from one message. *)
Definition exn_str (e : exn) : string :=
  match e with
  | TypeError msg | ValueError msg | OtherException _ msg => msg
  | BaseOnly _ => EmptyString
  end.

Definition exn_args (e : exn) : pyval :=
  match e with
  | TypeError msg | ValueError msg | OtherException _ msg => PTuple [PStr msg]
  | BaseOnly _ => PTuple []
  end.

(** [isinstance(result, Exception)], with the instance when it holds. *)
Definition as_Exception (r : result) : option exn :=
  match r with
  | ResValue (PExc e) => if is_Exception e then Some e else None
  | _ => None
  end.

Definition is_error_result (r : result) : bool :=
  match r with
  | ResDict d => bool_decide (is_Some (d !! "errorCode"))
  | ResValue _ =>
      match as_Exception r with
      | Some _ => true
      | None => false
      end
  end.

Definition normalize_result (r : result) : gmap string pyval :=
  match r with
  | ResDict d => d
  | ResValue v =>
      match as_Exception r with
      | Some e =>
          <["errorCode" := PStr (exn_class e)]>
            (<["errorSummary" := PStr (exn_str e)]>
               (<["errorDetail" := exn_args e]> ∅))
      | None =>
          match v with
          | PNone => <["status" := PStr "success"]> (<["data" := PNone]> ∅)
          | _ => <["status" := PStr "success"]> (<["data" := v]> ∅)
          end
      end
  end.

(** [mcp.types.TextContent]. *)
Record TextContent : Type := {
  type : string;
  text : string
}.

Definition newline : string := String "010"%char EmptyString.

(** The heading of every error text, up to the tool's name. *)
Definition error_heading : string := "### Error executing tool: ".

Definition format_error_response (error : exn) (tool_name : string) : list TextContent :=
  let error_type := exn_class error in
  let error_message := exn_str error in
  [ {| type := "text";
       text := error_heading ++ tool_name ++ newline ++ newline
               ++ "**Type**: " ++ error_type ++ newline ++ newline
               ++ "**Message**: " ++ error_message ++ newline ++ newline
               ++ "Please check your Okta credentials and permissions, "
               ++ "or try again with different parameters." |} ].

(** What [handle_okta_result] returns: the result itself, or a list of
    text contents. *)
Inductive handled : Type :=
| Unchanged (r : result)
| ErrorResponse (response : list TextContent).

Section ErrorHandling.

(** [str(v)] inside an f-string, as for the normaliser. *)
Variable py_format : pyval -> string.

(** [result.get(key, dflt)], interpolated in an f-string. *)
Definition get_text (d : gmap string pyval) (key dflt : string) : string :=
  match d !! key with
  | Some v => py_format v
  | None => dflt
  end.

Definition handle_okta_result (r : result) (tool_name : string) : handled :=
  if is_error_result r then
    match as_Exception r with
    | Some e => ErrorResponse (format_error_response e tool_name)
    | None =>
        match r with
        | ResDict d =>
            let error :=
              OtherException "Exception"
                ("Okta API Error: " ++ get_text d "errorCode" "Unknown" ++ ": "
                 ++ get_text d "errorSummary" "Unknown error") in
            ErrorResponse (format_error_response error tool_name)
        | ResValue _ => Unchanged r
        end
    end
  else Unchanged r.

End ErrorHandling.

(** [_, _, err = normalize_okta_response(raw)]: the third component. *)
Definition error_slot (normalized : pyval) : pyval :=
  match normalized with
  | PTuple l => nth 2 l PNone
  | _ => PNone
  end.

(** ** [okta_client.py] *)

(** The configuration dictionary that [create_okta_client] passes to the
    SDK. *)
Record OktaConfig : Type := {
  orgUrl : string;
  token : string;
  requestTimeout : Z;
  maxRetries : Z
}.

(** [not s] for a value of [os.getenv]: unset or empty. *)
Definition unset (o : option string) : bool :=
  match o with
  | None => true
  | Some s => String.eqb s ""
  end.

Section RateLimits.

(** Clock readings are floating-point numbers; the section takes them as
    an abstract type with the two operations the class uses:
    [now > limit] and [now + reset_seconds]. *)
Context {T : Type}.
Variable later : T -> T -> bool.
Variable plus : T -> Z -> T.

(** The SDK's client class and its constructor [OktaClient(config)], which
    checks the configuration and may raise. *)
Context {OktaClient : Type}.
Variable new_OktaClient : OktaConfig -> outcome OktaClient.

Definition create_okta_client (org_url api_token : string) : outcome OktaClient :=
  if String.eqb org_url "" || String.eqb api_token "" then
    Raise (ValueError "Okta organization URL and API token are required")
  else
    new_OktaClient {| orgUrl := org_url; token := api_token;
                      requestTimeout := 30; maxRetries := 1 |}.

Record OktaMcpClient : Type := {
  _client : option OktaClient;
  _client_initialized : bool;
  rate_limits : gmap string T;
  request_manager : option RequestManager
}.

(** [__init__]. *)
Definition new_client (client : option OktaClient) (manager : option RequestManager)
  : OktaMcpClient :=
  {| _client := client;
     _client_initialized := bool_decide (is_Some client);
     rate_limits := ∅;
     request_manager := manager |}.

(** [update_rate_limit], with [now] the reading of [time.time()]. *)
Definition update_rate_limit (self : OktaMcpClient) (endpoint : string)
    (reset_seconds : Z) (now : T) : OktaMcpClient :=
  {| _client := _client self;
     _client_initialized := _client_initialized self;
     rate_limits := <[endpoint := plus now reset_seconds]> (rate_limits self);
     request_manager := request_manager self |}.

(** [is_rate_limited]: the answer and the client as the call leaves it. *)
Definition is_rate_limited (self : OktaMcpClient) (endpoint : string) (now : T)
  : bool * OktaMcpClient :=
  match rate_limits self !! endpoint with
  | None => (false, self)
  | Some limit =>
      if later now limit then
        (false, {| _client := _client self;
                   _client_initialized := _client_initialized self;
                   rate_limits := delete endpoint (rate_limits self);
                   request_manager := request_manager self |})
      else (true, self)
  end.

(** [_initialize_client], with the process environment as a map. *)
Definition _initialize_client (env : gmap string string) (self : OktaMcpClient)
  : outcome OktaMcpClient :=
  let org_url := env !! "OKTA_CLIENT_ORGURL" in
  let api_token := env !! "OKTA_API_TOKEN" in
  if unset org_url || unset api_token then
    Raise (ValueError
      "Okta configuration required. Set OKTA_CLIENT_ORGURL and OKTA_API_TOKEN environment variables.")
  else
    match create_okta_client (default EmptyString org_url) (default EmptyString api_token) with
    | Raise e => Raise e
    | Ret c =>
        Ret {| _client := Some c;
               _client_initialized := true;
               rate_limits := rate_limits self;
               request_manager := request_manager self |}
    end.

(** The [client] property. *)
Definition client (env : gmap string string) (self : OktaMcpClient)
  : outcome (option OktaClient * OktaMcpClient) :=
  if negb (_client_initialized self) then
    match _initialize_client env self with
    | Raise e => Raise e
    | Ret self' => Ret (_client self', self')
    end
  else Ret (_client self, self).

(** How [execute_api_call] runs [func]. *)
Inductive route : Type :=
| ViaRequestManager (m : RequestManager)
| Directly.

(** [execute_api_call] up to the call of [func]: the client is made ready,
    then the call goes through [RequestManager.execute] when there is a
    manager. *)
Definition execute_api_call (env : gmap string string) (self : OktaMcpClient)
  : outcome (route * OktaMcpClient) :=
  match client env self with
  | Raise e => Raise e
  | Ret (_, self') =>
      match request_manager self' with
      | Some m => Ret (ViaRequestManager m, self')
      | None => Ret (Directly, self')
      end
  end.

End RateLimits.

(** A constructor for concrete runs: the client is its configuration, and
    only an HTTPS organisation URL is accepted. *)
Definition https_only (config : OktaConfig) : outcome OktaConfig :=
  if String.prefix "https://" (orgUrl config) then Ret config
  else Raise (ValueError "orgUrl must start with https.").

(** * Properties *)

(** ** The normaliser *)

Section NormalizeFacts.

Variable py_format : pyval -> string.

(** C6: every input, whatever its shape, is mapped to a tuple of exactly
    three components (the function is total: no input makes it raise),
    and [None] is mapped to [(None, None, None)]. *)
Theorem normalize_total_triple :
  (forall response : pyval,
      exists items cursor error : pyval,
        normalize_okta_response py_format response = PTuple [items; cursor; error])
  /\ normalize_okta_response py_format PNone = PTuple [PNone; PNone; PNone].
Proof.
  split; [| reflexivity].
  intros response. destruct response as [| b | z | s | l | l | e | attrs];
    try (cbn; eauto; fail).
  unfold normalize_okta_response.
  destruct (Nat.eqb (length l) 3) eqn:E3.
  - apply Nat.eqb_eq in E3.
    destruct l as [| a [| b [| c [| d l]]]]; try discriminate. eauto.
  - destruct (Nat.eqb (length l) 2); eauto.
Qed.

(** C7 (as amended): on every input the function agrees with the case
    definition [cases_normalize]: a 3-tuple is returned as it is, a
    2-tuple gets a [None] error, any other tuple gives
    [(None, None, ValueError)] with the tuple's text in the message, and
    a value that is no tuple is returned itself in the first slot, with
    its [response] attribute (or [None]) as cursor. *)
Theorem normalize_cases : forall response : pyval,
    normalize_okta_response py_format response = cases_normalize py_format response.
Proof.
  intros response. destruct response as [| b | z | s | l | l | e | attrs];
    try reflexivity.
  destruct l as [| a [| b [| c [| d l]]]]; reflexivity.
Qed.

End NormalizeFacts.

(** C7 fails as the specification words it: a bare instance is returned
    itself in the first slot, never wrapped in a list. *)
Lemma normalize_bare_not_wrapped :
  ~ (forall (py_format : pyval -> string) (response : pyval),
        normalize_okta_response py_format response = spec_normalize response).
Proof.
  intros H. specialize (H (fun _ => EmptyString) (PObj ∅)). discriminate H.
Qed.

(** ** The pagination walk *)

Ltac five_parts := split; [| split; [| split; [| split]]].

Lemma except_Exception_inv {St : Type} (e : exn) (f : frame) (w : world St) r w' :
  except_Exception e f w = Some (r, w') ->
  w' = w /\ (forall f', r = LoopExit f' -> f' = f).
Proof.
  unfold except_Exception. destruct (is_Exception e); intros [= <- <-];
    split; try reflexivity; intros f' [=]; congruence.
Qed.

Section WalkerFacts.

Context {St : Type} (ops : cursor St).
Variable max_pages : Z.

Lemma sole_event_stops (ev : event) :
  stops_walk ev = true -> exists ev', last [ev] = Some ev' /\ stops_walk ev' = true.
Proof. intros H. exists ev. split; [reflexivity | exact H]. Qed.

(** What a finished run of the loop did: the calls it made, how many
    fetches, the page count it left, and why it stopped. *)
Lemma walk_inv (resp : response) (fuel : nat) :
  forall (f : frame) (w : world St) r w',
    walk ops fuel max_pages resp f w = Some (r, w') ->
    exists evs,
      trace w' = trace w ++ evs
      /\ Z.of_nat (count_next evs) <= Z.max 0 (max_pages - page_count f)
      /\ (forall f', r = LoopExit f' ->
                     page_count f' = page_count f + Z.of_nat (count_next evs))
      /\ (resp <> RespPaged -> evs = [])
      /\ (max_pages <= page_count f + Z.of_nat (count_next evs)
          \/ resp <> RespPaged
          \/ exists ev, last evs = Some ev /\ stops_walk ev = true).
Proof.
  induction fuel as [| fuel IH]; intros f w r w' H; [discriminate |].
  cbn [walk] in H.
  destruct (page_count f <? max_pages) eqn:Elt; cbn [negb] in H.
  2:{ injection H as <- <-. apply Z.ltb_ge in Elt. exists [].
      rewrite app_nil_r. cbn. five_parts.
      - reflexivity.
      - lia.
      - intros f' [= <-]. lia.
      - reflexivity.
      - left. lia. }
  apply Z.ltb_lt in Elt.
  destruct resp as [v |].
  - (* a value without methods: whatever the guard says, no call is made *)
    assert (Hout : w' = w /\ (forall f', r = LoopExit f' -> f' = f)).
    { destruct (resp_truthy (RespValue v)); cbn [negb] in H;
        [| injection H as <- <-; split; [reflexivity | intros f' [=]; congruence]].
      destruct (resp_hasattr (RespValue v) "has_next"); cbn [negb] in H;
        [| injection H as <- <-; split; [reflexivity | intros f' [=]; congruence]].
      cbn [call_has_next] in H. apply except_Exception_inv in H. exact H. }
    destruct Hout as [-> Hf]. exists []. rewrite app_nil_r. cbn. five_parts.
    + reflexivity.
    + lia.
    + intros f' Hr. rewrite (Hf f' Hr). lia.
    + reflexivity.
    + right. left. discriminate.
  - cbn [resp_truthy resp_hasattr negb call_has_next call_next] in H.
    destruct (has_next ops (cur w)) as [hn s1] eqn:Ehn.
    destruct hn as [more | e].
    2:{ apply except_Exception_inv in H. destruct H as [-> Hf].
        exists [EvHasNext (Raise e)]. cbn. five_parts.
        - reflexivity.
        - lia.
        - intros f' Hr. rewrite (Hf f' Hr). lia.
        - congruence.
        - right. right. apply sole_event_stops. reflexivity. }
    destruct (truthy more) eqn:Emore; cbn [negb] in H.
    2:{ injection H as <- <-. exists [EvHasNext (Ret more)]. cbn. five_parts.
        - reflexivity.
        - lia.
        - intros f' [= <-]. lia.
        - congruence.
        - right. right. apply sole_event_stops. cbn. rewrite Emore. reflexivity. }
    cbn [cur trace] in H.
    destruct (next ops s1) as [nx s2] eqn:Enx.
    assert (Hstop : forall f1 : frame,
               page_count f1 = page_count f + 1 ->
               stops_walk (EvNext nx) = true ->
               forall w2 : world St,
                 trace w2 = (trace w ++ [EvHasNext (Ret more)]) ++ [EvNext nx] ->
                 (w' = w2 /\ forall f', r = LoopExit f' -> f' = f1) ->
                 exists evs,
                   trace w' = trace w ++ evs
                   /\ Z.of_nat (count_next evs) <= Z.max 0 (max_pages - page_count f)
                   /\ (forall f', r = LoopExit f' ->
                                  page_count f' = page_count f + Z.of_nat (count_next evs))
                   /\ (RespPaged <> RespPaged -> evs = [])
                   /\ (max_pages <= page_count f + Z.of_nat (count_next evs)
                       \/ RespPaged <> RespPaged
                       \/ exists ev, last evs = Some ev /\ stops_walk ev = true)).
    { intros f1 Hpc Hs w2 Htr [-> Hf].
      exists [EvHasNext (Ret more); EvNext nx]. rewrite Htr, <- app_assoc. cbn.
      five_parts.
      - reflexivity.
      - lia.
      - intros f' Hr. rewrite (Hf f' Hr). lia.
      - congruence.
      - right. right. exists (EvNext nx). split; [reflexivity | exact Hs]. }
    destruct nx as [raw | e].
    2:{ apply except_Exception_inv in H.
        eapply Hstop; [| reflexivity | | exact H]; reflexivity. }
    destruct (py_unpack2 raw) as [[next_users next_err] | e] eqn:Eun.
    2:{ apply except_Exception_inv in H.
        eapply Hstop; [| cbn; rewrite Eun; reflexivity | | exact H]; reflexivity. }
    destruct (truthy next_err) eqn:Eerr.
    { injection H as <- <-.
      eapply Hstop;
        [| cbn; rewrite Eun, Eerr; reflexivity
         | | split; [reflexivity | intros f' [= <-]; reflexivity]];
        reflexivity. }
    destruct (py_iter next_users) as [users | e] eqn:Eit.
    2:{ apply except_Exception_inv in H.
        eapply Hstop; [| cbn; rewrite Eun, Eerr, Eit; reflexivity | | exact H];
          reflexivity. }
    clear Hstop. apply IH in H. destruct H as (evs & Htr & Hcnt & Hpc & _ & Hwhy).
    cbn [page_count trace] in *.
    exists (EvHasNext (Ret more) :: EvNext (Ret raw) :: evs).
    assert (Hc : count_next (EvHasNext (Ret more) :: EvNext (Ret raw) :: evs)
                 = S (count_next evs)) by reflexivity.
    rewrite Hc. five_parts.
    + rewrite Htr, <- !app_assoc. reflexivity.
    + lia.
    + intros f' Hr. rewrite (Hpc f' Hr). lia.
    + congruence.
    + destruct Hwhy as [Hb | [Hn | (ev & Hl & Hs)]].
      * left. lia.
      * congruence.
      * right. right. exists ev. split; [| exact Hs].
        rewrite !last_cons, Hl. reflexivity.
Qed.

(** The loop always finishes within [max_pages - page_count + 1] rounds. *)
Lemma walk_enough_fuel (resp : response) (fuel : nat) :
  forall (f : frame) (w : world St),
    (Z.to_nat (max_pages - page_count f) < fuel)%nat ->
    exists r w', walk ops fuel max_pages resp f w = Some (r, w').
Proof.
  induction fuel as [| fuel IH]; intros f w Hfuel; [lia |].
  cbn [walk].
  destruct (page_count f <? max_pages) eqn:Elt; cbn [negb]; [| eauto].
  apply Z.ltb_lt in Elt.
  destruct (resp_truthy resp); cbn [negb]; [| eauto].
  destruct (resp_hasattr resp "has_next"); cbn [negb]; [| eauto].
  destruct (call_has_next ops resp w) as [[more | e] w1].
  2:{ unfold except_Exception. destruct (is_Exception e); eauto. }
  destruct (truthy more); cbn [negb]; [| eauto].
  destruct (call_next ops resp w1) as [[raw | e] w2].
  2:{ unfold except_Exception. destruct (is_Exception e); eauto. }
  destruct (py_unpack2 raw) as [[next_users next_err] | e].
  2:{ unfold except_Exception. destruct (is_Exception e); eauto. }
  destruct (truthy next_err); [eauto |].
  destruct (py_iter next_users) as [users | e].
  2:{ unfold except_Exception. destruct (is_Exception e); eauto. }
  apply IH. cbn [page_count]. lia.
Qed.

(** With an [Exception]-only cursor the loop is always left normally. *)
Lemma walk_exits (resp : response) (fuel : nat) :
  (forall s e, fst (has_next ops s) = Raise e -> is_Exception e = true) ->
  (forall s e, fst (next ops s) = Raise e -> is_Exception e = true) ->
  forall (f : frame) (w : world St) r w',
    walk ops fuel max_pages resp f w = Some (r, w') ->
    exists f', r = LoopExit f'.
Proof.
  intros Hhn Hnx. induction fuel as [| fuel IH]; intros f w r w' H; [discriminate |].
  cbn [walk] in H.
  destruct (page_count f <? max_pages); cbn [negb] in H;
    [| injection H as <- <-; eauto].
  destruct (resp_truthy resp); cbn [negb] in H; [| injection H as <- <-; eauto].
  destruct (resp_hasattr resp "has_next"); cbn [negb] in H;
    [| injection H as <- <-; eauto].
  destruct resp as [v |].
  { cbn in H. injection H as <- <-. eauto. }
  cbn [call_has_next call_next] in H.
  specialize (Hhn (cur w)).
  destruct (has_next ops (cur w)) as [[more | e] s1]; cbn [fst] in Hhn.
  2:{ unfold except_Exception in H. rewrite (Hhn e eq_refl) in H.
      injection H as <- <-. eauto. }
  destruct (truthy more); cbn [negb] in H; [| injection H as <- <-; eauto].
  cbn [cur trace] in H. specialize (Hnx s1).
  destruct (next ops s1) as [[raw | e] s2]; cbn [fst] in Hnx.
  2:{ unfold except_Exception in H. rewrite (Hnx e eq_refl) in H.
      injection H as <- <-. eauto. }
  unfold py_unpack2 in H.
  destruct (py_iter raw) as [[| a [| b [| c l]]] | e]; cbn in H;
    try (injection H as <- <-; eauto; fail).
  destruct (truthy b); [injection H as <- <-; eauto |].
  destruct (py_iter a) as [users | e] eqn:Eit.
  - eapply IH. exact H.
  - destruct a; cbn in Eit; try discriminate; injection Eit as <-;
      cbn in H; injection H as <- <-; eauto.
Qed.

(** The loop follows a cursor through the pages it serves. *)
Lemma walk_serves (pages : list (list pyval)) (evs : list event) (s s' : St) :
  serves ops s pages evs s' ->
  forall (fuel : nat) (f : frame) (tr : list event),
    page_count f + Z.of_nat (length pages) <= max_pages ->
    walk ops (length pages + fuel) max_pages RespPaged f {| cur := s; trace := tr |}
    = walk ops fuel max_pages RespPaged
        {| page_count := page_count f + Z.of_nat (length pages);
           all_results := all_results f ++ flat_map valid_items pages |}
        {| cur := s'; trace := tr ++ evs |}.
Proof.
  induction 1 as [s | s more s1 raw s2 next_users next_err users pages evs s3
                     Hhn Hmore Hnx Hun Herr Hit Hrest IH];
    intros fuel f tr Hpc.
  - cbn. rewrite Z.add_0_r, !app_nil_r. destruct f; reflexivity.
  - cbn [length Nat.add walk]. cbn [length] in Hpc.
    assert (Elt : (page_count f <? max_pages) = true) by (apply Z.ltb_lt; lia).
    rewrite Elt. cbn [negb resp_truthy resp_hasattr call_has_next call_next cur trace].
    rewrite Hhn, Hmore. cbn [negb cur trace]. rewrite Hnx, Hun, Herr, Hit.
    rewrite IH by (cbn [page_count]; lia).
    cbn [page_count all_results flat_map].
    replace (page_count f + 1 + Z.of_nat (length pages))
      with (page_count f + Z.of_nat (S (length pages))) by lia.
    rewrite <- !app_assoc. reflexivity.
Qed.

(** The calls of a finished run on the paged response are those of a
    walk that stops at the first reason to stop. *)
Lemma walk_stops_first (fuel : nat) :
  forall (f : frame) (w : world St) r w',
    walk ops fuel max_pages RespPaged f w = Some (r, w') ->
    exists evs,
      trace w' = trace w ++ evs
      /\ stops_first (Z.to_nat (max_pages - page_count f)) evs = true.
Proof.
  induction fuel as [| fuel IH]; intros f w r w' H; [discriminate |].
  cbn [walk] in H.
  destruct (page_count f <? max_pages) eqn:Elt; cbn [negb] in H.
  2:{ injection H as <- <-. apply Z.ltb_ge in Elt. exists [].
      rewrite app_nil_r. split; [reflexivity |].
      replace (Z.to_nat (max_pages - page_count f)) with 0%nat by lia.
      reflexivity. }
  apply Z.ltb_lt in Elt.
  assert (Hbudget : Z.to_nat (max_pages - page_count f)
                    = S (Z.to_nat (max_pages - (page_count f + 1)))) by lia.
  rewrite Hbudget.
  cbn [resp_truthy resp_hasattr negb call_has_next call_next] in H.
  destruct (has_next ops (cur w)) as [[more | e] s1].
  2:{ apply except_Exception_inv in H. destruct H as [-> _].
      exists [EvHasNext (Raise e)]. split; reflexivity. }
  destruct (truthy more) eqn:Emore; cbn [negb] in H.
  2:{ injection H as <- <-. exists [EvHasNext (Ret more)].
      split; [reflexivity |]. cbn. rewrite Emore. reflexivity. }
  cbn [cur trace] in H.
  destruct (next ops s1) as [nx s2].
  assert (Hstop : forall w2 : world St,
             stops_walk (EvNext nx) = true ->
             trace w2 = (trace w ++ [EvHasNext (Ret more)]) ++ [EvNext nx] ->
             w' = w2 ->
             exists evs,
               trace w' = trace w ++ evs
               /\ stops_first (S (Z.to_nat (max_pages - (page_count f + 1)))) evs
                  = true).
  { intros w2 Hs Htr ->. exists [EvHasNext (Ret more); EvNext nx].
    rewrite Htr, <- app_assoc. split; [reflexivity |].
    cbn [stops_first]. rewrite Emore, Hs. reflexivity. }
  destruct nx as [raw | e].
  2:{ apply except_Exception_inv in H.
      eapply Hstop; [reflexivity | | apply H]. reflexivity. }
  destruct (py_unpack2 raw) as [[next_users next_err] | e] eqn:Eun.
  2:{ apply except_Exception_inv in H.
      eapply Hstop; [cbn; rewrite Eun; reflexivity | | apply H]. reflexivity. }
  destruct (truthy next_err) eqn:Eerr.
  { injection H as <- <-.
    eapply Hstop; [cbn; rewrite Eun, Eerr; reflexivity | | reflexivity].
    reflexivity. }
  destruct (py_iter next_users) as [users | e] eqn:Eit.
  2:{ apply except_Exception_inv in H.
      eapply Hstop; [cbn; rewrite Eun, Eerr, Eit; reflexivity | | apply H].
      reflexivity. }
  clear Hstop. apply IH in H. destruct H as (evs & Htr & Hfirst).
  cbn [page_count trace] in *.
  exists (EvHasNext (Ret more) :: EvNext (Ret raw) :: evs). split.
  - rewrite Htr, <- !app_assoc. reflexivity.
  - assert (Hgo : stops_walk (EvNext (Ret raw)) = false)
      by (cbn; rewrite Eun, Eerr, Eit; reflexivity).
    cbn [stops_first]. rewrite Emore, Hgo. exact Hfirst.
Qed.

(** C5: for a positive page budget and any cursor, the walk finishes as
    soon as the loop is given [max_pages] rounds; it calls [next()] at most
    [max_pages - 1] times, hence never more than [max_pages] times; and it
    stops at whichever comes first of the budget being used up,
    [has_next()] saying no (or raising) and a fetch failing, and not
    before: its calls on the paged response are, round after round, a
    truthy [has_next()] and a good [next()], until the budget of
    [max_pages - 1] fetches is spent or a call says to stop, and that call
    is the last.  No call is made when the initial error is truthy, when
    the initial items cannot be iterated, or when the response is not the
    paged one. *)
Theorem paginate_terminates_within_budget
    (fuel : nat) (initial_results : pyval) (initial_resp : response)
    (initial_err : pyval) (w : world St) :
  0 < max_pages ->
  (Z.to_nat max_pages <= fuel)%nat ->
  exists r w' evs,
    paginate_okta_response ops fuel max_pages initial_results initial_resp
      initial_err w = Some (r, w')
    /\ trace w' = trace w ++ evs
    /\ Z.of_nat (count_next evs) <= max_pages - 1
    /\ (Z.of_nat (count_next evs) = max_pages - 1
        \/ evs = []
        \/ exists ev, last evs = Some ev /\ stops_walk ev = true)
    /\ (if truthy initial_err then evs = []
        else
          match py_iter initial_results with
          | Raise e => evs = [] /\ r = Raise e
          | Ret _ =>
              match initial_resp with
              | RespValue _ => evs = []
              | RespPaged => stops_first (Z.to_nat (max_pages - 1)) evs = true
              end
          end).
Proof.
  intros Hpos Hfuel. unfold paginate_okta_response.
  destruct (truthy initial_err).
  { exists (Ret (initial_results, initial_resp, initial_err, 1)), w, [].
    rewrite app_nil_r. cbn. repeat split; try lia. right. left. reflexivity. }
  destruct (py_iter initial_results) as [items | e].
  2:{ exists (Raise e), w, []. rewrite app_nil_r. cbn. repeat split; try lia.
      right. left. reflexivity. }
  destruct (walk_enough_fuel initial_resp fuel
              {| page_count := 1; all_results := valid_items items |} w)
    as (r & w' & Hw); [cbn [page_count]; lia |].
  rewrite Hw.
  destruct (walk_inv _ _ _ _ _ _ Hw) as (evs & Htr & Hcnt & Hpc & Hval & Hwhy).
  cbn [page_count] in *.
  assert (Hgoal : trace w' = trace w ++ evs
                  /\ Z.of_nat (count_next evs) <= max_pages - 1
                  /\ (Z.of_nat (count_next evs) = max_pages - 1
                      \/ evs = []
                      \/ exists ev, last evs = Some ev /\ stops_walk ev = true)
                  /\ match initial_resp with
                     | RespValue _ => evs = []
                     | RespPaged =>
                         stops_first (Z.to_nat (max_pages - 1)) evs = true
                     end).
  { split; [exact Htr |]. split; [lia |]. split.
    - destruct Hwhy as [Hb | [Hn | Hs]].
      + left. lia.
      + right. left. apply Hval, Hn.
      + right. right. exact Hs.
    - destruct initial_resp as [v |].
      + apply Hval. discriminate.
      + destruct (walk_stops_first _ _ _ _ _ Hw) as (evs' & Htr' & Hfirst).
        cbn [page_count] in Hfirst. rewrite Htr in Htr'.
        apply app_inv_head in Htr'. subst evs'. exact Hfirst. }
  destruct Hgoal as (G1 & G2 & G3 & G4).
  destruct r as [f' | e]; eexists _, w', evs; repeat split; try assumption.
Qed.

(** C10: whenever the walk returns a tuple, its page count is at least
    one. *)
Theorem paginate_counts_initial_page
    (fuel : nat) (initial_results : pyval) (initial_resp : response)
    (initial_err : pyval) (w : world St)
    (results : pyval) (resp : response) (err : pyval) (pages : Z) (w' : world St) :
  paginate_okta_response ops fuel max_pages initial_results initial_resp
    initial_err w = Some (Ret (results, resp, err, pages), w') ->
  1 <= pages.
Proof.
  unfold paginate_okta_response.
  destruct (truthy initial_err); [intros [= <- <- <- <- <-]; lia |].
  destruct (py_iter initial_results) as [items | e]; [| discriminate].
  destruct (walk ops fuel max_pages initial_resp _ w) as [[[f' | e] w2] |] eqn:Hw;
    try discriminate.
  intros [= <- <- <- <- <-].
  destruct (walk_inv _ _ _ _ _ _ Hw) as (evs & _ & _ & Hpc & _).
  rewrite (Hpc f' eq_refl). cbn [page_count]. lia.
Qed.

(** C4 (as amended): when the initial error is truthy, as every error
    object is, the walk returns at once what it was given, with the error
    in its slot and a page count of one, and leaves the cursor and the
    trace of calls untouched. *)
Theorem paginate_initial_error_immediate
    (fuel : nat) (initial_results : pyval) (initial_resp : response)
    (initial_err : pyval) (w : world St) :
  truthy initial_err = true ->
  paginate_okta_response ops fuel max_pages initial_results initial_resp
    initial_err w
  = Some (Ret (initial_results, initial_resp, initial_err, 1), w).
Proof. intros H. unfold paginate_okta_response. rewrite H. reflexivity. Qed.

(** C1 (as amended): let the cursor serve the continuation pages 2 to
    [k - 1] and then fail on page [k <= max_pages].  The walk makes no
    call after the failed fetch and returns the valid items of pages 1 to
    [k - 1], in order; the error slot of the returned tuple is [None] and
    the page count is [k]. *)
Theorem paginate_page_error_keeps_partial
    (fuel : nat) (initial_results initial_err : pyval) (items0 : list pyval)
    (pages : list (list pyval)) (evs : list event)
    (w : world St) (s1 s2 s3 : St) (more : pyval) (failure : outcome pyval) :
  truthy initial_err = false ->
  py_iter initial_results = Ret items0 ->
  serves ops (cur w) pages evs s1 ->
  has_next ops s1 = (Ret more, s2) ->
  truthy more = true ->
  next ops s2 = (failure, s3) ->
  page_error failure = true ->
  Z.of_nat (length pages) + 2 <= max_pages ->
  (length pages < fuel)%nat ->
  paginate_okta_response ops fuel max_pages initial_results RespPaged
    initial_err w
  = Some (Ret (PList (valid_items items0 ++ flat_map valid_items pages),
               RespPaged, PNone, Z.of_nat (length pages) + 2),
          {| cur := s3;
             trace := trace w ++ evs ++ [EvHasNext (Ret more); EvNext failure] |}).
Proof.
  intros Herr Hit Hserves Hhn Hmore Hnx Hfail Hk Hfuel.
  unfold paginate_okta_response. rewrite Herr, Hit.
  replace fuel with (length pages + S (fuel - S (length pages)))%nat by lia.
  destruct w as [s tr]. cbn [cur trace] in *.
  rewrite (walk_serves _ _ _ _ Hserves) by (cbn [page_count]; lia).
  cbn [page_count all_results walk].
  assert (Elt : (1 + Z.of_nat (length pages) <? max_pages) = true)
    by (apply Z.ltb_lt; lia).
  rewrite Elt.
  cbn [negb resp_truthy resp_hasattr call_has_next call_next cur trace].
  rewrite Hhn, Hmore. cbn [negb cur trace]. rewrite Hnx.
  assert (Hpc : 1 + Z.of_nat (length pages) + 1 = Z.of_nat (length pages) + 2) by lia.
  destruct failure as [raw | e]; cbn [page_error] in Hfail.
  - destruct (py_unpack2 raw) as [[next_users next_err] | e]; [| discriminate].
    rewrite Hfail. cbn [page_count all_results]. rewrite Hpc, <- !app_assoc.
    reflexivity.
  - unfold except_Exception. rewrite Hfail. cbn [page_count all_results].
    rewrite Hpc, <- !app_assoc. reflexivity.
Qed.

(** C9 (as amended): an empty page does not end the walk.  When
    [has_next()] is truthy and [next()] returns no items and no error,
    the loop goes on to its next round with the page count raised by one
    and the accumulated items unchanged; it stops only when the budget,
    [has_next()] or an error says so. *)
Theorem walk_continues_after_empty_page
    (fuel : nat) (f : frame) (w : world St) (s1 s2 : St)
    (more raw next_users next_err : pyval) :
  page_count f < max_pages ->
  has_next ops (cur w) = (Ret more, s1) ->
  truthy more = true ->
  next ops s1 = (Ret raw, s2) ->
  py_unpack2 raw = Ret (next_users, next_err) ->
  truthy next_err = false ->
  py_iter next_users = Ret [] ->
  walk ops (S fuel) max_pages RespPaged f w
  = walk ops fuel max_pages RespPaged
      {| page_count := page_count f + 1; all_results := all_results f |}
      {| cur := s2;
         trace := trace w ++ [EvHasNext (Ret more); EvNext (Ret raw)] |}.
Proof.
  intros Hlt Hhn Hmore Hnx Hun Herr Hit.
  cbn [walk]. apply Z.ltb_lt in Hlt. rewrite Hlt.
  cbn [negb resp_truthy resp_hasattr call_has_next call_next].
  rewrite Hhn, Hmore. cbn [negb cur trace]. rewrite Hnx, Hun, Herr, Hit.
  cbn [page_count all_results valid_items List.filter].
  rewrite app_nil_r, <- app_assoc. reflexivity.
Qed.

(** C8 (as amended): the walk returns a tuple, with any page budget, any
    response object and any cursor whose methods raise nothing but
    [Exception]s, provided the initial error is truthy or the initial
    items can be iterated.  Malformed pages and failing cursor calls only
    end the loop early. *)
Theorem paginate_returns_normally
    (fuel : nat) (initial_results : pyval) (initial_resp : response)
    (initial_err : pyval) (w : world St) :
  (Z.to_nat (max_pages - 1) < fuel)%nat ->
  (truthy initial_err = true \/ exists items, py_iter initial_results = Ret items) ->
  (forall s e, fst (has_next ops s) = Raise e -> is_Exception e = true) ->
  (forall s e, fst (next ops s) = Raise e -> is_Exception e = true) ->
  exists v w',
    paginate_okta_response ops fuel max_pages initial_results initial_resp
      initial_err w = Some (Ret v, w').
Proof.
  intros Hfuel Hinit Hhn Hnx. unfold paginate_okta_response.
  destruct (truthy initial_err) eqn:Eerr; [eauto |].
  destruct Hinit as [Habs | [items Hit]]; [discriminate |].
  rewrite Hit.
  destruct (walk_enough_fuel initial_resp fuel
              {| page_count := 1; all_results := valid_items items |} w)
    as (r & w' & Hw); [cbn [page_count]; exact Hfuel |].
  rewrite Hw.
  destruct (walk_exits initial_resp fuel Hhn Hnx _ _ _ _ Hw) as [f' ->].
  eauto.
Qed.

End WalkerFacts.

(** ** The request manager *)

Lemma filter_length_app (p : phase -> bool) (ps qs : list phase) :
  Z.of_nat (length (List.filter p (ps ++ qs)))
  = Z.of_nat (length (List.filter p ps)) + Z.of_nat (length (List.filter p qs)).
Proof. rewrite List.filter_app, length_app. lia. Qed.

(** Overwriting one entry changes a count by what the entry weighed before
    and weighs after. *)
Lemma filter_length_insert (p : phase -> bool) (ps : list phase) :
  forall (t : nat) (old new : phase),
    ps !! t = Some old ->
    Z.of_nat (length (List.filter p (<[t := new]> ps)))
    = Z.of_nat (length (List.filter p ps)) - Z.b2z (p old) + Z.b2z (p new).
Proof.
  induction ps as [| q ps IH]; intros t old new Hlook; [discriminate |].
  destruct t as [| t].
  - injection Hlook as ->. change (<[0%nat := new]> (old :: ps)) with (new :: ps).
    cbn [List.filter]. destruct (p old), (p new); cbn [length Z.b2z]; lia.
  - change (ps !! t = Some old) in Hlook. specialize (IH t old new Hlook).
    change (<[S t := new]> (q :: ps)) with (q :: <[t := new]> ps).
    cbn [List.filter]. destruct (p q); cbn [length]; lia.
Qed.

Lemma running_le_slots (ps : list phase) : running ps <= slots_held ps.
Proof.
  unfold running, slots_held.
  induction ps as [| q ps IH]; [reflexivity |].
  destruct q; cbn [List.filter is_running holds_slot length]; lia.
Qed.

Lemma run_app (ls1 ls2 : list label) (s : system) :
  run (ls1 ++ ls2) s = match run ls1 s with
                       | Some s' => run ls2 s'
                       | None => None
                       end.
Proof.
  revert s. induction ls1 as [| l ls1 IH]; intros s; [reflexivity |].
  cbn. destruct (step l s); [apply IH | reflexivity].
Qed.

Lemma boot_consistent (limit : Z) : consistent (boot limit).
Proof. split; cbn; [reflexivity | constructor | constructor]. Qed.

(** A waiting call is not the call that makes the step. *)
Lemma waiting_insert_other (ps : list phase) (q t : nat) (old new : phase) :
  ps !! q = Some Queued ->
  ps !! t = Some old ->
  old <> Queued ->
  <[t := new]> ps !! q = Some Queued.
Proof.
  intros Hq Ht Hold. rewrite list_lookup_insert_ne; [exact Hq |].
  intros ->. rewrite Hq in Ht. injection Ht as <-. apply Hold. reflexivity.
Qed.

Lemma step_consistent (l : label) (s s' : system) :
  consistent s -> step l s = Some s' -> consistent s'.
Proof.
  intros [Hcnt Hq Hnd] Hstep. destruct s as [m ps]. cbn [manager pool] in *.
  destruct l as [| t | t ok | t]; cbn [step manager pool] in Hstep.
  - (* Submit *)
    unfold acquire_slot in Hstep.
    destruct (active_requests m <? concurrent_limit m);
      injection Hstep as <-; split; cbn [manager pool active_requests request_queue].
    + unfold slots_held in *. rewrite filter_length_app, Hcnt. cbn. lia.
    + eapply Forall_impl; [exact Hq |]. cbn. intros q Hlook.
      rewrite lookup_app_l; [exact Hlook | eapply lookup_lt_Some; exact Hlook].
    + exact Hnd.
    + unfold slots_held in *. rewrite filter_length_app, Hcnt. cbn. lia.
    + apply Forall_app. split.
      * eapply Forall_impl; [exact Hq |]. cbn. intros q Hlook.
        rewrite lookup_app_l; [exact Hlook | eapply lookup_lt_Some; exact Hlook].
      * constructor; [| constructor].
        rewrite lookup_app_r by lia. rewrite Nat.sub_diag. reflexivity.
    + apply NoDup_app. split; [exact Hnd |]. split; [| apply NoDup_singleton].
      intros q Hin Hq'. apply list_elem_of_singleton in Hq'. subst q.
      rewrite Forall_forall in Hq. apply Hq in Hin.
      apply lookup_lt_Some in Hin. lia.
  - (* Start *)
    destruct (ps !! t) as [[| | | ok | ok] |] eqn:Ht; try discriminate.
    injection Hstep as <-. split; cbn [manager pool].
    + unfold slots_held in *. rewrite (filter_length_insert _ _ _ _ _ Ht), Hcnt.
      cbn. lia.
    + eapply Forall_impl; [exact Hq |]. cbn. intros q Hlook.
      eapply waiting_insert_other; [exact Hlook | exact Ht | discriminate].
    + exact Hnd.
  - (* Finish *)
    destruct (ps !! t) as [[| | | ok' | ok'] |] eqn:Ht; try discriminate.
    injection Hstep as <-. split; cbn [manager pool].
    + unfold slots_held in *. rewrite (filter_length_insert _ _ _ _ _ Ht), Hcnt.
      cbn. lia.
    + eapply Forall_impl; [exact Hq |]. cbn. intros q Hlook.
      eapply waiting_insert_other; [exact Hlook | exact Ht | discriminate].
    + exact Hnd.
  - (* Release *)
    destruct (ps !! t) as [[| | | ok | ok] |] eqn:Ht; try discriminate.
    unfold _release_slot in Hstep.
    destruct (request_queue m) as [| n rest] eqn:Equeue;
      injection Hstep as <-; split; cbn [manager pool active_requests request_queue].
    + unfold slots_held in *. rewrite (filter_length_insert _ _ _ _ _ Ht), Hcnt.
      cbn. lia.
    + constructor.
    + constructor.
    + apply Forall_cons in Hq. destruct Hq as [Hn Hrest].
      assert (Hn' : <[t := Done ok]> ps !! n = Some Queued)
        by (eapply waiting_insert_other; [exact Hn | exact Ht | discriminate]).
      unfold slots_held in *.
      rewrite (filter_length_insert _ _ _ _ _ Hn'),
        (filter_length_insert _ _ _ _ _ Ht), Hcnt.
      cbn. lia.
    + apply Forall_cons in Hq. destruct Hq as [Hn Hrest].
      apply NoDup_cons in Hnd. destruct Hnd as [Hfresh Hnd].
      rewrite Forall_forall in Hrest. apply Forall_forall. intros q Hin.
      rewrite list_lookup_insert_ne by (intros ->; contradiction).
      eapply waiting_insert_other; [apply Hrest, Hin | exact Ht | discriminate].
    + apply NoDup_cons in Hnd. apply Hnd.
Qed.

Lemma run_consistent (ls : list label) :
  forall s s', consistent s -> run ls s = Some s' -> consistent s'.
Proof.
  induction ls as [| l ls IH]; intros s s' Hc Hrun; cbn in Hrun.
  - injection Hrun as <-. exact Hc.
  - destruct (step l s) as [s1 |] eqn:Hstep; [| discriminate].
    eapply IH; [eapply step_consistent; eassumption | exact Hrun].
Qed.

(** No step issues a slot beyond the limit, and none changes the limit. *)
Lemma step_bounded (l : label) (s s' : system) :
  step l s = Some s' ->
  active_requests (manager s) <= concurrent_limit (manager s) ->
  active_requests (manager s') <= concurrent_limit (manager s')
  /\ concurrent_limit (manager s') = concurrent_limit (manager s).
Proof.
  intros Hstep Hle. destruct s as [m ps]. cbn [manager pool] in *.
  destruct l as [| t | t ok | t]; cbn [step manager pool] in Hstep.
  - unfold acquire_slot in Hstep.
    destruct (active_requests m <? concurrent_limit m) eqn:Elt;
      injection Hstep as <-; cbn; [apply Z.ltb_lt in Elt |]; lia.
  - destruct (ps !! t) as [[| | | ok | ok] |]; try discriminate.
    injection Hstep as <-. cbn. lia.
  - destruct (ps !! t) as [[| | | ok' | ok'] |]; try discriminate.
    injection Hstep as <-. cbn. lia.
  - destruct (ps !! t) as [[| | | ok | ok] |]; try discriminate.
    unfold _release_slot in Hstep.
    destruct (request_queue m); injection Hstep as <-; cbn; lia.
Qed.

Lemma run_bounded (ls : list label) :
  forall s s',
    run ls s = Some s' ->
    active_requests (manager s) <= concurrent_limit (manager s) ->
    active_requests (manager s') <= concurrent_limit (manager s')
    /\ concurrent_limit (manager s') = concurrent_limit (manager s).
Proof.
  induction ls as [| l ls IH]; intros s s' Hrun Hle; cbn in Hrun.
  - injection Hrun as <-. split; [exact Hle | reflexivity].
  - destruct (step l s) as [s1 |] eqn:Hstep; [| discriminate].
    destruct (step_bounded _ _ _ Hstep Hle) as [Hle1 Hlim1].
    destruct (IH _ _ Hrun Hle1) as [Hle' Hlim']. split; [exact Hle' | congruence].
Qed.

Lemma releases_app (t : nat) (ls1 ls2 : list label) :
  releases t (ls1 ++ ls2) = (releases t ls1 + releases t ls2)%nat.
Proof. unfold releases. rewrite List.filter_app, length_app. reflexivity. Qed.

Lemma done_insert_other (ps : list phase) (t u : nat) (old new : phase) :
  ps !! u = Some old ->
  is_done old = false ->
  is_done new = false ->
  match <[u := new]> ps !! t with Some (Done _) => 1%nat | _ => 0%nat end
  = match ps !! t with Some (Done _) => 1%nat | _ => 0%nat end.
Proof.
  intros Hu Hold Hnew. destruct (decide (t = u)) as [-> | Hne].
  - rewrite list_lookup_insert_eq by (eapply lookup_lt_Some; exact Hu).
    rewrite Hu. destruct old, new; try discriminate; reflexivity.
  - rewrite list_lookup_insert_ne by congruence. reflexivity.
Qed.

Lemma step_released_once (l : label) (hist : list label) (s s' : system) :
  consistent s ->
  released_once hist s ->
  step l s = Some s' ->
  released_once (hist ++ [l]) s'.
Proof.
  intros [_ Hq _] Hrel Hstep t. specialize (Hrel t).
  rewrite releases_app, Hrel. clear Hrel.
  destruct s as [m ps]. cbn [manager pool] in *.
  destruct l as [| u | u ok | u]; cbn [step manager pool] in Hstep.
  - (* Submit *)
    destruct (acquire_slot m (length ps)) as [m' can_execute].
    injection Hstep as <-. cbn [pool releases is_release List.filter length].
    rewrite Nat.add_0_r.
    destruct (decide (t < length ps)%nat) as [Hlt | Hge].
    + rewrite lookup_app_l by exact Hlt. reflexivity.
    + rewrite (lookup_ge_None_2 ps t) by lia.
      rewrite lookup_app_r by lia.
      destruct (t - length ps)%nat as [| k]; [destruct can_execute |]; reflexivity.
  - (* Start *)
    destruct (ps !! u) as [[| | | ok | ok] |] eqn:Hu; try discriminate.
    injection Hstep as <-. cbn [pool releases is_release List.filter length].
    rewrite Nat.add_0_r. symmetry.
    eapply done_insert_other; [exact Hu | reflexivity | reflexivity].
  - (* Finish *)
    destruct (ps !! u) as [[| | | ok' | ok'] |] eqn:Hu; try discriminate.
    injection Hstep as <-. cbn [pool releases is_release List.filter length].
    rewrite Nat.add_0_r. symmetry.
    eapply done_insert_other; [exact Hu | reflexivity | reflexivity].
  - (* Release *)
    destruct (ps !! u) as [[| | | ok | ok] |] eqn:Hu; try discriminate.
    assert (Hself : match <[u := Done ok]> ps !! t with
                    | Some (Done _) => 1%nat | _ => 0%nat end
                    = (match ps !! t with Some (Done _) => 1%nat | _ => 0%nat end
                       + releases t [Release u])%nat).
    { unfold releases. cbn [List.filter is_release].
      destruct (decide (t = u)) as [-> | Hne].
      - rewrite list_lookup_insert_eq by (eapply lookup_lt_Some; exact Hu).
        rewrite Hu, Nat.eqb_refl. reflexivity.
      - rewrite list_lookup_insert_ne by congruence.
        assert (Hneq : Nat.eqb t u = false) by (apply Nat.eqb_neq; exact Hne).
        rewrite Hneq. cbn [length]. lia. }
    unfold _release_slot in Hstep.
    destruct (request_queue m) as [| n rest] eqn:Equeue;
      injection Hstep as <-; cbn [pool].
    + symmetry. exact Hself.
    + apply Forall_cons in Hq. destruct Hq as [Hn _].
      assert (Hn' : <[u := Done ok]> ps !! n = Some Queued)
        by (eapply waiting_insert_other; [exact Hn | exact Hu | discriminate]).
      rewrite (done_insert_other _ t n Queued Promoted Hn' eq_refl eq_refl).
      symmetry. exact Hself.
Qed.

Lemma run_released_once (ls : list label) :
  forall hist s s',
    consistent s ->
    released_once hist s ->
    run ls s = Some s' ->
    released_once (hist ++ ls) s'.
Proof.
  induction ls as [| l ls IH]; intros hist s s' Hc Hrel Hrun; cbn in Hrun.
  - injection Hrun as <-. rewrite app_nil_r. exact Hrel.
  - destruct (step l s) as [s1 |] eqn:Hstep; [| discriminate].
    change (l :: ls) with ([l] ++ ls). rewrite app_assoc.
    eapply IH; [| | exact Hrun].
    + eapply step_consistent; eassumption.
    + eapply step_released_once; eassumption.
Qed.

(** A waiting call leaves the queue only in the [Release] step of a call
    that has finished: that call becomes done, the waiting call is
    promoted, and the counter keeps its value. *)
Lemma step_handover (l : label) (s s' : system) (t : nat) :
  step l s = Some s' ->
  pool s !! t = Some Queued ->
  pool s' !! t <> Some Queued ->
  exists t' ok,
    l = Release t'
    /\ pool s !! t' = Some (Finished ok)
    /\ pool s' !! t' = Some (Done ok)
    /\ pool s' !! t = Some Promoted
    /\ active_requests (manager s') = active_requests (manager s).
Proof.
  intros Hstep Ht Hleft. destruct s as [m ps]. cbn [manager pool] in *.
  destruct l as [| u | u ok | u]; cbn [step manager pool] in Hstep.
  - destruct (acquire_slot m (length ps)) as [m' can_execute].
    injection Hstep as <-. cbn [pool] in Hleft. exfalso. apply Hleft.
    rewrite lookup_app_l; [exact Ht | eapply lookup_lt_Some; exact Ht].
  - destruct (ps !! u) as [[| | | ok | ok] |] eqn:Hu; try discriminate.
    injection Hstep as <-. cbn [pool] in Hleft. exfalso. apply Hleft.
    eapply waiting_insert_other; [exact Ht | exact Hu | discriminate].
  - destruct (ps !! u) as [[| | | ok' | ok'] |] eqn:Hu; try discriminate.
    injection Hstep as <-. cbn [pool] in Hleft. exfalso. apply Hleft.
    eapply waiting_insert_other; [exact Ht | exact Hu | discriminate].
  - destruct (ps !! u) as [[| | | ok | ok] |] eqn:Hu; try discriminate.
    assert (Ht' : <[u := Done ok]> ps !! t = Some Queued)
      by (eapply waiting_insert_other; [exact Ht | exact Hu | discriminate]).
    assert (Hne : t <> u) by (intros ->; rewrite Ht in Hu; discriminate).
    unfold _release_slot in Hstep.
    destruct (request_queue m) as [| n rest];
      injection Hstep as <-; cbn [pool manager active_requests] in *.
    + contradiction.
    + destruct (decide (n = t)) as [-> | Hnt].
      * exists u, ok. split; [reflexivity |]. split; [exact Hu |].
        split; [| split; [| reflexivity]].
        -- rewrite list_lookup_insert_ne by exact Hne.
           apply list_lookup_insert_eq. eapply lookup_lt_Some; exact Hu.
        -- apply list_lookup_insert_eq. rewrite length_insert.
           eapply lookup_lt_Some; exact Ht.
      * exfalso. apply Hleft. rewrite list_lookup_insert_ne by exact Hnt. exact Ht'.
Qed.

(** C2: with a non-negative limit, in every state that a schedule of
    submit, start, finish and release steps reaches from a new manager,
    the calls whose function is executing are no more than
    [active_requests], [active_requests] is no more than the limit, and a
    queued call leaves the queue only when a finished call hands it its
    slot in its release step, the counter staying as it was. *)
Theorem admission_never_exceeds_limit (limit : Z) (ls : list label) (s : system) :
  0 <= limit ->
  run ls (boot limit) = Some s ->
  running (pool s) <= active_requests (manager s)
  /\ active_requests (manager s) <= limit
  /\ concurrent_limit (manager s) = limit
  /\ forall (l : label) (s' : system) (t : nat),
       step l s = Some s' ->
       pool s !! t = Some Queued ->
       pool s' !! t <> Some Queued ->
       exists t' ok,
         l = Release t'
         /\ pool s !! t' = Some (Finished ok)
         /\ pool s' !! t' = Some (Done ok)
         /\ pool s' !! t = Some Promoted
         /\ active_requests (manager s') = active_requests (manager s).
Proof.
  intros Hlimit Hrun.
  pose proof (run_consistent ls _ _ (boot_consistent limit) Hrun) as [Hcnt _ _].
  destruct (run_bounded ls _ _ Hrun) as [Hle Hlim]; [cbn; exact Hlimit |].
  cbn in Hlim. rewrite Hlim in Hle.
  split; [rewrite Hcnt; apply running_le_slots |].
  split; [exact Hle |]. split; [exact Hlim |].
  intros l s' t. apply step_handover.
Qed.

(** C3: take any reachable state [s0] and any schedule from it to [s1].
    If the calls of [s0] stand in [s1] as they stood and all the calls
    submitted since are done, whether their function returned or raised,
    then [active_requests] has in [s1] the value it had in [s0].  Over
    the whole history every done call has run its release block exactly
    once, and no other call has run it. *)
Theorem slots_returned_after_completion
    (limit : Z) (before during : list label) (s0 s1 : system) :
  run before (boot limit) = Some s0 ->
  run during s0 = Some s1 ->
  (forall calls : list phase,
      pool s1 = pool s0 ++ calls ->
      forallb is_done calls = true ->
      active_requests (manager s1) = active_requests (manager s0))
  /\ (forall t : nat,
         releases t (before ++ during)
         = match pool s1 !! t with
           | Some (Done _) => 1%nat
           | _ => 0%nat
           end).
Proof.
  intros Hbefore Hduring.
  pose proof (run_consistent before _ _ (boot_consistent limit) Hbefore) as Hc0.
  pose proof (run_consistent during _ _ Hc0 Hduring) as Hc1.
  split.
  - intros calls Hpool Hdone.
    rewrite (counter_is_slots _ Hc1), (counter_is_slots _ Hc0), Hpool.
    unfold slots_held. rewrite filter_length_app.
    assert (Hnone : List.filter holds_slot calls = []).
    { clear Hpool. induction calls as [| c calls IH]; [reflexivity |].
      cbn [forallb] in Hdone. apply andb_prop in Hdone. destruct Hdone as [Hc Hrest].
      destruct c; try discriminate. cbn [List.filter holds_slot]. apply IH, Hrest. }
    rewrite Hnone. cbn. lia.
  - assert (Hrun : run (before ++ during) (boot limit) = Some s1)
      by (rewrite run_app, Hbefore; exact Hduring).
    change (before ++ during) with ([] ++ (before ++ during)).
    eapply run_released_once; [apply boot_consistent | | exact Hrun].
    intros t. cbn. rewrite lookup_nil. reflexivity.
Qed.

(** ** Concrete walks and schedules *)

(** C1 fails as the specification words it: in its own scenario the walk
    hands back [None] in the error slot and a page count of three. *)
Lemma third_page_failure_not_reported : ~ spec_third_page_scenario.
Proof.
  intros (items & resp & err & w' & Hrun & _ & _).
  vm_compute in Hrun. discriminate Hrun.
Qed.

(** C4 fails as the specification words it: the walk that stops on an
    initial error reports one page, not zero. *)
Lemma initial_error_counts_one_page : ~ spec_initial_error_zero_pages.
Proof.
  intros H.
  destruct (H (list page) scripted 1%nat 1 PNone RespPaged (PExc rate_limited)
              (start [])) as (results & resp & Hrun); [discriminate |].
  vm_compute in Hrun. discriminate Hrun.
Qed.

(** C8 fails as the specification words it: with [None] for the initial
    items and no error, the comprehension before the [try] raises
    [TypeError], and the walk raises with it. *)
Lemma null_items_raise : ~ spec_walk_never_crashes.
Proof.
  intros H.
  destruct (H (list page) scripted 1%nat 1 PNone (RespValue PNone) PNone
              (start [])) as (v & w' & Hrun); [cbn; lia |].
  vm_compute in Hrun. discriminate Hrun.
Qed.

(** C9 fails as the specification words it: after an empty second page
    the walk calls [next()] again for the third. *)
Lemma empty_page_does_not_stop : ~ spec_stops_on_empty_page.
Proof.
  intros H.
  specialize (H (list page) scripted 2%nat 3
                {| page_count := 1; all_results := [] |}
                (start [PageItems []; PageItems [item 1]])
                [PageItems []; PageItems [item 1]] [PageItems [item 1]]
                (PBool true) (PTuple [PList []; PNone]) (PList []) PNone).
  destruct (walk scripted 3 3 RespPaged {| page_count := 1; all_results := [] |}
              (start [PageItems []; PageItems [item 1]])) as [[r w'] |] eqn:Hrun;
    [| vm_compute in Hrun; discriminate Hrun].
  specialize (H r w').
  assert (Hcount : count_next (trace w') = 2%nat).
  { vm_compute in Hrun. injection Hrun as <- <-. reflexivity. }
  rewrite Hcount in H. cbn in H.
  assert (Habs : 2%nat = 1%nat) by (apply H; (lia || reflexivity)).
  discriminate Habs.
Qed.

Lemma paginate_terminates_within_budget_witness :
  0 < 3
  /\ (Z.to_nat 3 <= 3)%nat
  /\ exists r w' evs,
       paginate_okta_response scripted 3 3 (PList (ten_items 0)) RespPaged PNone
         (start third_page_fails) = Some (r, w')
       /\ trace w' = trace (start third_page_fails) ++ evs
       /\ Z.of_nat (count_next evs) <= 3 - 1
       /\ (Z.of_nat (count_next evs) = 3 - 1
           \/ evs = []
           \/ exists ev, last evs = Some ev /\ stops_walk ev = true)
       /\ stops_first (Z.to_nat (3 - 1)) evs = true.
Proof.
  split; [lia |]. split; [cbn; lia |].
  apply (paginate_terminates_within_budget scripted 3 3%nat
           (PList (ten_items 0)) RespPaged PNone (start third_page_fails));
    [lia | cbn; lia].
Defined.

Lemma paginate_counts_initial_page_witness :
  paginate_okta_response scripted 3 3 (PList [item 1]) RespPaged PNone
    (start [PageItems [item 2]])
  = Some (Ret (PList [item 1; item 2], RespPaged, PNone, 2),
          {| cur := [];
             trace := [EvHasNext (Ret (PBool true));
                       EvNext (Ret (PTuple [PList [item 2]; PNone]));
                       EvHasNext (Ret (PBool false))] |})
  /\ 1 <= 2.
Proof.
  assert (Hrun : paginate_okta_response scripted 3 3 (PList [item 1]) RespPaged PNone
                   (start [PageItems [item 2]])
                 = Some (Ret (PList [item 1; item 2], RespPaged, PNone, 2),
                         {| cur := [];
                            trace := [EvHasNext (Ret (PBool true));
                                      EvNext (Ret (PTuple [PList [item 2]; PNone]));
                                      EvHasNext (Ret (PBool false))] |}))
    by (vm_compute; reflexivity).
  split; [exact Hrun |].
  exact (paginate_counts_initial_page scripted 3 3%nat _ _ _ _ _ _ _ _ _ Hrun).
Defined.

Lemma paginate_initial_error_immediate_witness :
  truthy (PExc rate_limited) = true
  /\ paginate_okta_response scripted 3 3 PNone RespPaged (PExc rate_limited)
       (start third_page_fails)
     = Some (Ret (PNone, RespPaged, PExc rate_limited, 1), start third_page_fails).
Proof.
  split; [reflexivity |].
  apply (paginate_initial_error_immediate scripted 3 3%nat). reflexivity.
Defined.

Lemma paginate_page_error_keeps_partial_witness :
  page_error (Ret (PTuple [PNone; PExc rate_limited])) = true
  /\ length (valid_items (ten_items 0) ++ flat_map valid_items [ten_items 10]) = 20%nat
  /\ paginate_okta_response scripted 3 3 (PList (ten_items 0)) RespPaged PNone
       (start third_page_fails)
     = Some (Ret (PList (valid_items (ten_items 0)
                         ++ flat_map valid_items [ten_items 10]),
                  RespPaged, PNone, Z.of_nat (length [ten_items 10]) + 2),
             {| cur := [PageItems (ten_items 30); PageItems (ten_items 40)];
                trace := trace (start third_page_fails)
                         ++ [EvHasNext (Ret (PBool true));
                             EvNext (Ret (PTuple [PList (ten_items 10); PNone]))]
                         ++ [EvHasNext (Ret (PBool true));
                             EvNext (Ret (PTuple [PNone; PExc rate_limited]))] |}).
Proof.
  split; [reflexivity |]. split; [vm_compute; reflexivity |].
  apply (paginate_page_error_keeps_partial scripted 3 3%nat
           (PList (ten_items 0)) PNone (ten_items 0) [ten_items 10]
           [EvHasNext (Ret (PBool true));
            EvNext (Ret (PTuple [PList (ten_items 10); PNone]))]
           (start third_page_fails)
           [PageError rate_limited; PageItems (ten_items 30); PageItems (ten_items 40)]
           [PageError rate_limited; PageItems (ten_items 30); PageItems (ten_items 40)]
           [PageItems (ten_items 30); PageItems (ten_items 40)]
           (PBool true) (Ret (PTuple [PNone; PExc rate_limited]))).
  - reflexivity.
  - reflexivity.
  - eapply (serves_cons scripted _ (PBool true) _ _ _ (PList (ten_items 10)) PNone);
      [reflexivity | reflexivity | reflexivity | reflexivity | reflexivity
       | reflexivity | apply serves_nil].
  - reflexivity.
  - reflexivity.
  - reflexivity.
  - reflexivity.
  - cbn. lia.
  - cbn. lia.
Defined.

Lemma walk_continues_after_empty_page_witness :
  page_count {| page_count := 1; all_results := [item 0] |} < 3
  /\ py_iter (PList []) = Ret []
  /\ walk scripted 3 3 RespPaged {| page_count := 1; all_results := [item 0] |}
       (start [PageItems []; PageItems [item 1]])
     = walk scripted 2 3 RespPaged {| page_count := 1 + 1; all_results := [item 0] |}
         {| cur := [PageItems [item 1]];
            trace := [] ++ [EvHasNext (Ret (PBool true));
                            EvNext (Ret (PTuple [PList []; PNone]))] |}.
Proof.
  split; [cbn; lia |]. split; [reflexivity |].
  apply (walk_continues_after_empty_page scripted 3 2%nat
           {| page_count := 1; all_results := [item 0] |}
           (start [PageItems []; PageItems [item 1]])
           [PageItems []; PageItems [item 1]] [PageItems [item 1]]
           (PBool true) (PTuple [PList []; PNone]) (PList []) PNone);
    (cbn; lia) || reflexivity.
Defined.

Lemma paginate_returns_normally_witness :
  (Z.to_nat (5 - 1) < 5)%nat
  /\ (exists items, py_iter (PList [item 0]) = Ret items)
  /\ exists v w',
       paginate_okta_response stubborn 5 5 (PList [item 0]) RespPaged PNone
         {| cur := 0%nat; trace := [] |} = Some (Ret v, w').
Proof.
  split; [cbn; lia |]. split; [eexists; reflexivity |].
  apply (paginate_returns_normally stubborn 5 5%nat).
  - cbn. lia.
  - right. eexists. reflexivity.
  - intros s e Hraise. discriminate Hraise.
  - intros s e Hraise. cbn in Hraise. injection Hraise as <-. reflexivity.
Defined.

Lemma admission_never_exceeds_limit_witness :
  0 <= 2
  /\ run (firstn 8 five_calls) (boot 2)
     = Some {| manager := {| concurrent_limit := 2; active_requests := 2;
                             request_queue := [3%nat; 4%nat] |};
               pool := [Done true; Running; Running; Queued; Queued] |}
  /\ running [Done true; Running; Running; Queued; Queued] <= 2
  /\ 2 <= 2.
Proof.
  split; [lia |]. split; [reflexivity |].
  destruct (admission_never_exceeds_limit 2 (firstn 8 five_calls)
              {| manager := {| concurrent_limit := 2; active_requests := 2;
                               request_queue := [3%nat; 4%nat] |};
                 pool := [Done true; Running; Running; Queued; Queued] |})
    as (Hrunning & Hactive & _); [lia | reflexivity |].
  split; [exact Hrunning | exact Hactive].
Defined.

Lemma slots_returned_after_completion_witness :
  run [Submit] (boot 2)
  = Some {| manager := {| concurrent_limit := 2; active_requests := 1;
                          request_queue := [] |};
            pool := [Running] |}
  /\ run [Submit; Submit; Finish 1 false; Release 1; Start 2; Finish 2 true; Release 2]
       {| manager := {| concurrent_limit := 2; active_requests := 1;
                        request_queue := [] |};
          pool := [Running] |}
     = Some {| manager := {| concurrent_limit := 2; active_requests := 1;
                             request_queue := [] |};
               pool := [Running; Done false; Done true] |}
  /\ active_requests
       (manager {| manager := {| concurrent_limit := 2; active_requests := 1;
                                 request_queue := [] |};
                   pool := [Running; Done false; Done true] |})
     = active_requests
         (manager {| manager := {| concurrent_limit := 2; active_requests := 1;
                                   request_queue := [] |};
                     pool := [Running] |})
  /\ releases 1 ([Submit] ++ [Submit; Submit; Finish 1 false; Release 1; Start 2;
                              Finish 2 true; Release 2]) = 1%nat
  /\ releases 0 ([Submit] ++ [Submit; Submit; Finish 1 false; Release 1; Start 2;
                              Finish 2 true; Release 2]) = 0%nat.
Proof.
  split; [reflexivity |]. split; [reflexivity |].
  destruct (slots_returned_after_completion 2 [Submit]
              [Submit; Submit; Finish 1 false; Release 1; Start 2; Finish 2 true;
               Release 2]
              {| manager := {| concurrent_limit := 2; active_requests := 1;
                               request_queue := [] |};
                 pool := [Running] |}
              {| manager := {| concurrent_limit := 2; active_requests := 1;
                               request_queue := [] |};
                 pool := [Running; Done false; Done true] |}
              eq_refl eq_refl) as [Hback Honce].
  split; [exact (Hback [Done false; Done true] eq_refl eq_refl) |].
  split; [exact (Honce 1%nat) | exact (Honce 0%nat)].
Defined.

(** The five calls under a limit of two all complete, and the counter is
    back at zero. *)
Example five_calls_complete :
  run five_calls (boot 2)
  = Some {| manager := {| concurrent_limit := 2; active_requests := 0;
                          request_queue := [] |};
            pool := [Done true; Done false; Done true; Done true; Done true] |}.
Proof. reflexivity. Qed.

(** A bare instance without a [response] attribute: the normaliser passes
    it on with a [None] cursor, and a walk over it as the only item makes
    no call and reports one page. *)
Example bare_item_walk :
  normalize_okta_response (fun _ => EmptyString) (item 7)
  = PTuple [item 7; PNone; PNone]
  /\ paginate_okta_response scripted 3 3 (PList [item 7]) (RespValue PNone) PNone
       (start [])
     = Some (Ret (PList [item 7], RespValue PNone, PNone, 1), start []).
Proof. split; vm_compute; reflexivity. Qed.

(** ** More on the request manager *)

Lemma boot_orderly (limit : Z) : orderly (boot limit).
Proof.
  split; cbn.
  - reflexivity.
  - intros t Ht. rewrite lookup_nil in Ht. discriminate.
  - constructor.
  - intros Habs. contradiction.
Qed.

(** Overwriting an entry with a phase other than [Queued] leaves no new
    waiting call. *)
Lemma queued_before_insert (ps : list phase) (u t : nat) (new : phase) :
  new <> Queued ->
  <[u := new]> ps !! t = Some Queued ->
  ps !! t = Some Queued.
Proof.
  intros Hnew Hlook. destruct (decide (t = u)) as [-> | Hne].
  - destruct (decide (u < length ps)%nat) as [Hlt | Hge].
    + rewrite list_lookup_insert_eq in Hlook by exact Hlt. congruence.
    + rewrite list_insert_ge in Hlook by lia. exact Hlook.
  - rewrite list_lookup_insert_ne in Hlook by congruence. exact Hlook.
Qed.

Lemma waiting_insert (ps : list phase) (t : nat) (old new : phase) :
  ps !! t = Some old ->
  Z.of_nat (waiting (<[t := new]> ps))
  = Z.of_nat (waiting ps) - Z.b2z (is_queued old) + Z.b2z (is_queued new).
Proof. intros Ht. unfold waiting. apply filter_length_insert, Ht. Qed.

Lemma step_orderly (l : label) (s s' : system) :
  consistent s -> orderly s -> step l s = Some s' -> orderly s'.
Proof.
  intros [Hcnt Hq Hnd] [Hlen Hin Hsort Hfull] Hstep. destruct s as [m ps].
  unfold queue_size in *. cbn [manager pool] in *.
  destruct l as [| u | u ok | u]; cbn [step manager pool] in Hstep.
  - (* Submit *)
    unfold acquire_slot in Hstep.
    destruct (active_requests m <? concurrent_limit m) eqn:Elt;
      injection Hstep as <-; split; unfold queue_size;
      cbn [manager pool active_requests request_queue concurrent_limit].
    + unfold waiting in *. rewrite List.filter_app, length_app. cbn. lia.
    + intros t Ht. destruct (decide (t < length ps)%nat) as [Hlt | Hge].
      * rewrite lookup_app_l in Ht by exact Hlt. apply Hin, Ht.
      * rewrite lookup_app_r in Ht by lia.
        destruct (t - length ps)%nat; cbn in Ht; discriminate.
    + exact Hsort.
    + intros Hne. specialize (Hfull Hne). lia.
    + unfold waiting in *. rewrite length_app, List.filter_app, length_app. cbn. lia.
    + intros t Ht. apply elem_of_app.
      destruct (decide (t < length ps)%nat) as [Hlt | Hge].
      * rewrite lookup_app_l in Ht by exact Hlt. left. apply Hin, Ht.
      * right. apply list_elem_of_singleton.
        assert (Hlook := lookup_lt_Some _ _ _ Ht).
        rewrite length_app in Hlook. cbn in Hlook. lia.
    + apply StronglySorted_app_2; [| exact Hsort | repeat constructor].
      intros x1 x2 Hx1 Hx2. apply list_elem_of_singleton in Hx2. subst x2.
      rewrite Forall_forall in Hq. eapply lookup_lt_Some, Hq, Hx1.
    + intros _. apply Z.ltb_ge, Elt.
  - (* Start *)
    destruct (ps !! u) as [[| | | ok | ok] |] eqn:Hu; try discriminate.
    injection Hstep as <-. split; unfold queue_size; cbn [manager pool].
    + apply Nat2Z.inj. rewrite (waiting_insert _ _ _ _ Hu). cbn. lia.
    + intros t Ht. apply Hin. eapply queued_before_insert; [| exact Ht]. discriminate.
    + exact Hsort.
    + exact Hfull.
  - (* Finish *)
    destruct (ps !! u) as [[| | | ok' | ok'] |] eqn:Hu; try discriminate.
    injection Hstep as <-. split; unfold queue_size; cbn [manager pool].
    + apply Nat2Z.inj. rewrite (waiting_insert _ _ _ _ Hu). cbn. lia.
    + intros t Ht. apply Hin. eapply queued_before_insert; [| exact Ht]. discriminate.
    + exact Hsort.
    + exact Hfull.
  - (* Release *)
    destruct (ps !! u) as [[| | | ok | ok] |] eqn:Hu; try discriminate.
    unfold _release_slot in Hstep.
    destruct (request_queue m) as [| n rest] eqn:Equeue;
      injection Hstep as <-; split; unfold queue_size;
      cbn [manager pool active_requests request_queue concurrent_limit].
    + apply Nat2Z.inj. rewrite (waiting_insert _ _ _ _ Hu). cbn in *. lia.
    + intros t Ht. apply Hin. eapply queued_before_insert; [| exact Ht]. discriminate.
    + constructor.
    + intros Habs. contradiction.
    + apply Forall_cons in Hq. destruct Hq as [Hn _].
      assert (Hn' : <[u := Done ok]> ps !! n = Some Queued)
        by (eapply waiting_insert_other; [exact Hn | exact Hu | discriminate]).
      apply Nat2Z.inj.
      rewrite (waiting_insert _ _ _ _ Hn'), (waiting_insert _ _ _ _ Hu).
      cbn in *. lia.
    + intros t Ht.
      assert (Hne : t <> n).
      { intros ->. apply Forall_cons in Hq. destruct Hq as [Hn _].
        rewrite list_lookup_insert_eq in Ht; [discriminate |].
        rewrite length_insert. eapply lookup_lt_Some, Hn. }
      rewrite list_lookup_insert_ne in Ht by congruence.
      apply queued_before_insert in Ht; [| discriminate].
      apply Hin in Ht. apply elem_of_cons in Ht. destruct Ht as [-> | Ht];
        [contradiction | exact Ht].
    + apply StronglySorted_inv in Hsort. apply Hsort.
    + intros _. apply Hfull. discriminate.
Qed.

Lemma run_orderly (ls : list label) :
  forall s s', consistent s -> orderly s -> run ls s = Some s' -> orderly s'.
Proof.
  induction ls as [| l ls IH]; intros s s' Hc Ho Hrun; cbn in Hrun.
  - injection Hrun as <-. exact Ho.
  - destruct (step l s) as [s1 |] eqn:Hstep; [| discriminate].
    eapply IH; [| | exact Hrun].
    + eapply step_consistent; eassumption.
    + eapply step_orderly; eassumption.
Qed.

(** X1: contended calls are served first in, first out.  When a release
    step of a reachable state promotes a waiting call, no call submitted
    before it is still waiting. *)
Theorem release_promotes_earliest_waiting
    (limit : Z) (ls : list label) (s s' : system) (u t : nat) :
  run ls (boot limit) = Some s ->
  step (Release u) s = Some s' ->
  pool s !! t = Some Queued ->
  pool s' !! t = Some Promoted ->
  forall t', pool s !! t' = Some Queued -> (t <= t')%nat.
Proof.
  intros Hrun Hstep Ht Ht' t' Hwait.
  pose proof (run_consistent ls _ _ (boot_consistent limit) Hrun) as Hc.
  pose proof (run_orderly ls _ _ (boot_consistent limit) (boot_orderly limit) Hrun)
    as [_ Hin Hsort _].
  destruct s as [m ps]. cbn [manager pool step] in *.
  destruct (ps !! u) as [[| | | ok | ok] |] eqn:Hu; try discriminate.
  assert (Hne : t <> u) by (intros ->; rewrite Ht in Hu; discriminate).
  unfold _release_slot in Hstep.
  destruct (request_queue m) as [| n rest] eqn:Equeue;
    injection Hstep as <-; cbn [pool] in Ht'.
  - rewrite list_lookup_insert_ne in Ht' by congruence. congruence.
  - destruct (decide (t = n)) as [-> | Htn].
    + apply Hin in Hwait. apply elem_of_cons in Hwait.
      destruct Hwait as [-> | Hrest]; [lia |].
      apply StronglySorted_inv in Hsort. destruct Hsort as [_ Hall].
      rewrite Forall_forall in Hall. specialize (Hall _ Hrest). lia.
    + rewrite !list_lookup_insert_ne in Ht' by congruence. congruence.
Qed.

(** X2: no slot is idle while a call waits.  With a non-negative limit,
    whenever the queue of a reachable state is not empty, the counter of
    active requests equals the limit. *)
Theorem queue_only_at_full_load (limit : Z) (ls : list label) (s : system) :
  0 <= limit ->
  run ls (boot limit) = Some s ->
  (0 < queue_size (manager s))%nat ->
  active_count (manager s) = limit.
Proof.
  intros Hlimit Hrun Hqueue.
  pose proof (run_orderly ls _ _ (boot_consistent limit) (boot_orderly limit) Hrun)
    as [_ _ _ Hfull].
  destruct (run_bounded ls _ _ Hrun) as [Hle Hlim]; [cbn; exact Hlimit |].
  cbn in Hlim. unfold active_count, queue_size in *.
  assert (Hne : request_queue (manager s) <> [])
    by (intros Heq; rewrite Heq in Hqueue; cbn in Hqueue; lia).
  specialize (Hfull Hne). lia.
Qed.

Lemma phases_partition (ps : list phase) :
  Z.of_nat (length ps) = slots_held ps + Z.of_nat (waiting ps) + Z.of_nat (completed ps).
Proof.
  unfold slots_held, waiting, completed.
  induction ps as [| p ps IH]; [reflexivity |].
  destruct p; cbn [List.filter holds_slot is_queued is_done length]; lia.
Qed.

(** X3: every submitted call is accounted for.  In a reachable state the
    number of calls submitted is [active_count] plus [queue_size] plus the
    calls that are done, and [queue_size] is the number of calls that
    wait. *)
Theorem every_call_accounted (limit : Z) (ls : list label) (s : system) :
  run ls (boot limit) = Some s ->
  Z.of_nat (length (pool s))
  = active_count (manager s) + Z.of_nat (queue_size (manager s))
    + Z.of_nat (completed (pool s))
  /\ queue_size (manager s) = waiting (pool s).
Proof.
  intros Hrun.
  pose proof (run_consistent ls _ _ (boot_consistent limit) Hrun) as [Hcnt _ _].
  pose proof (run_orderly ls _ _ (boot_consistent limit) (boot_orderly limit) Hrun)
    as [Hlen _ _ _].
  split; [| exact Hlen].
  unfold active_count. rewrite Hcnt, Hlen. apply phases_partition.
Qed.

Lemma sum_cons (a : nat) (l : list nat) : list_sum (a :: l) = (a + list_sum l)%nat.
Proof. reflexivity. Qed.

Lemma remaining_insert (ps : list phase) :
  forall (t : nat) (old new : phase),
    ps !! t = Some old ->
    (remaining (<[t := new]> ps) + weight old = remaining ps + weight new)%nat.
Proof.
  unfold remaining.
  induction ps as [| q ps IH]; intros t old new Hlook; [discriminate |].
  destruct t as [| t].
  - injection Hlook as ->. change (<[0%nat := new]> (old :: ps)) with (new :: ps).
    cbn [map]. rewrite !sum_cons. lia.
  - change (ps !! t = Some old) in Hlook. specialize (IH t old new Hlook).
    change (<[S t := new]> (q :: ps)) with (q :: <[t := new]> ps).
    cbn [map]. rewrite !sum_cons. lia.
Qed.

Lemma first_move_some (ps : list phase) :
  forall (t0 : nat) (l : label),
    first_move t0 ps = Some l ->
    exists t p, ps !! t = Some p /\ next_move (t0 + t) p = Some l.
Proof.
  induction ps as [| q ps IH]; intros t0 l Hmove; [discriminate |].
  cbn [first_move] in Hmove. destruct (next_move t0 q) as [l' |] eqn:Hq.
  - injection Hmove as <-. exists 0%nat, q. rewrite Nat.add_0_r. split; [reflexivity | exact Hq].
  - destruct (IH _ _ Hmove) as (t & p & Hlook & Hnext).
    exists (S t), p. split; [exact Hlook |].
    replace (t0 + S t)%nat with (S t0 + t)%nat by lia. exact Hnext.
Qed.

Lemma first_move_none_idle (ps : list phase) :
  forall t0 : nat, first_move t0 ps = None -> List.filter holds_slot ps = [].
Proof.
  induction ps as [| q ps IH]; intros t0 Hmove; [reflexivity |].
  cbn [first_move] in Hmove. destruct q; cbn in Hmove; try discriminate;
    cbn [List.filter holds_slot]; eapply IH; exact Hmove.
Qed.

Lemma first_move_none_done (ps : list phase) :
  forall t0 : nat,
    first_move t0 ps = None -> waiting ps = 0%nat -> forallb is_done ps = true.
Proof.
  unfold waiting.
  induction ps as [| q ps IH]; intros t0 Hmove Hwait; [reflexivity |].
  cbn [first_move] in Hmove. destruct q; cbn in Hmove, Hwait; try discriminate.
  cbn [forallb is_done andb]. eapply IH; [exact Hmove | exact Hwait].
Qed.

Lemma step_keeps_limit (l : label) (s s' : system) :
  step l s = Some s' -> concurrent_limit (manager s') = concurrent_limit (manager s).
Proof.
  intros Hstep. destruct s as [m ps]. cbn [manager pool] in *.
  destruct l as [| u | u ok | u]; cbn [step manager pool] in Hstep.
  - unfold acquire_slot in Hstep.
    destruct (active_requests m <? concurrent_limit m); injection Hstep as <-; reflexivity.
  - destruct (ps !! u) as [[| | | ok | ok] |]; try discriminate.
    injection Hstep as <-. reflexivity.
  - destruct (ps !! u) as [[| | | ok' | ok'] |]; try discriminate.
    injection Hstep as <-. reflexivity.
  - destruct (ps !! u) as [[| | | ok | ok] |]; try discriminate.
    unfold _release_slot in Hstep.
    destruct (request_queue m); injection Hstep as <-; reflexivity.
Qed.

(** The next step of a call that holds a slot is enabled, adds no call and
    brings the pool nearer to completion. *)
Lemma move_progress (s : system) (l : label) :
  consistent s ->
  first_move 0 (pool s) = Some l ->
  exists s',
    step l s = Some s'
    /\ (remaining (pool s') < remaining (pool s))%nat
    /\ length (pool s') = length (pool s).
Proof.
  intros [_ Hq _] Hmove. destruct s as [m ps]. cbn [manager pool] in *.
  destruct (first_move_some _ _ _ Hmove) as (t & p & Hlook & Hnext).
  cbn [Nat.add] in Hnext.
  destruct p as [| | | ok | ok]; cbn in Hnext; try discriminate;
    injection Hnext as <-; cbn [step manager pool]; rewrite Hlook.
  - eexists. split; [reflexivity |]. cbn [pool].
    pose proof (remaining_insert ps t Promoted Running Hlook) as Hrem.
    rewrite length_insert. cbn in Hrem. split; [lia | reflexivity].
  - eexists. split; [reflexivity |]. cbn [pool].
    pose proof (remaining_insert ps t Running (Finished true) Hlook) as Hrem.
    rewrite length_insert. cbn in Hrem. split; [lia | reflexivity].
  - pose proof (remaining_insert ps t (Finished ok) (Done ok) Hlook) as Hrem.
    cbn in Hrem. unfold _release_slot.
    destruct (request_queue m) as [| n rest] eqn:Equeue.
    + eexists. split; [reflexivity |]. cbn [pool]. rewrite length_insert.
      split; [lia | reflexivity].
    + apply Forall_cons in Hq. destruct Hq as [Hn _].
      assert (Hn' : <[t := Done ok]> ps !! n = Some Queued)
        by (eapply waiting_insert_other; [exact Hn | exact Hlook | discriminate]).
      pose proof (remaining_insert _ n Queued Promoted Hn') as Hrem'.
      cbn in Hrem'.
      eexists. split; [reflexivity |]. cbn [pool]. rewrite !length_insert.
      split; [lia | reflexivity].
Qed.

Lemma drain (n : nat) :
  forall s : system,
    consistent s ->
    orderly s ->
    1 <= concurrent_limit (manager s) ->
    (remaining (pool s) <= n)%nat ->
    exists ls' s',
      run ls' s = Some s'
      /\ forallb is_done (pool s') = true
      /\ length (pool s') = length (pool s)
      /\ active_requests (manager s') = 0
      /\ request_queue (manager s') = [].
Proof.
  assert (Hquiet : forall s : system,
             consistent s -> orderly s -> 1 <= concurrent_limit (manager s) ->
             first_move 0 (pool s) = None ->
             exists ls' s',
               run ls' s = Some s'
               /\ forallb is_done (pool s') = true
               /\ length (pool s') = length (pool s)
               /\ active_requests (manager s') = 0
               /\ request_queue (manager s') = []).
  { intros s [Hcnt _ _] [Hlen _ _ Hfull] Hlimit Hnone.
    assert (Hzero : active_requests (manager s) = 0).
    { rewrite Hcnt. unfold slots_held. rewrite (first_move_none_idle _ _ Hnone).
      reflexivity. }
    assert (Hempty : request_queue (manager s) = []).
    { destruct (request_queue (manager s)) as [| q rest] eqn:Equeue; [reflexivity |].
      assert (Hne : q :: rest <> []) by discriminate.
      specialize (Hfull Hne). lia. }
    exists [], s. cbn [run]. repeat split; try assumption.
    eapply first_move_none_done; [exact Hnone |].
    rewrite <- Hlen. unfold queue_size. rewrite Hempty. reflexivity. }
  induction n as [| n IH]; intros s Hc Ho Hlimit Hrem.
  - destruct (first_move 0 (pool s)) as [l |] eqn:Hmove; [| apply Hquiet; assumption].
    destruct (move_progress s l Hc Hmove) as (s1 & _ & Hless & _). lia.
  - destruct (first_move 0 (pool s)) as [l |] eqn:Hmove; [| apply Hquiet; assumption].
    destruct (move_progress s l Hc Hmove) as (s1 & Hstep & Hless & Hsame).
    destruct (IH s1) as (ls' & s' & Hrun & Hdone & Hlen & Hzero & Hempty).
    + eapply step_consistent; eassumption.
    + eapply step_orderly; eassumption.
    + rewrite (step_keeps_limit _ _ _ Hstep). exact Hlimit.
    + lia.
    + exists (l :: ls'), s'. cbn [run]. rewrite Hstep.
      repeat split; try assumption. congruence.
Qed.

(** X4: no call is starved.  With a limit of at least one, every
    reachable state has a continuation, without any new submission, after
    which every call is done, the counter is zero and the queue is
    empty. *)
Theorem every_call_can_complete (limit : Z) (ls : list label) (s : system) :
  1 <= limit ->
  run ls (boot limit) = Some s ->
  exists ls' s',
    run ls' s = Some s'
    /\ forallb is_done (pool s') = true
    /\ length (pool s') = length (pool s)
    /\ active_count (manager s') = 0
    /\ queue_size (manager s') = 0%nat.
Proof.
  intros Hlimit Hrun.
  pose proof (run_consistent ls _ _ (boot_consistent limit) Hrun) as Hc.
  pose proof (run_orderly ls _ _ (boot_consistent limit) (boot_orderly limit) Hrun) as Ho.
  destruct (run_bounded ls _ _ Hrun) as [_ Hlim]; [cbn; lia |]. cbn in Hlim.
  destruct (drain (remaining (pool s)) s Hc Ho) as (ls' & s' & H1 & H2 & H3 & H4 & H5);
    [lia | lia |].
  exists ls', s'. unfold active_count, queue_size. rewrite H5.
  repeat split; assumption.
Qed.

(** X5: with a limit of zero or less no call ever starts.  Every call of
    every reachable state is still waiting and the counter is zero. *)
Theorem nonpositive_limit_starves (limit : Z) (ls : list label) (s : system) :
  limit <= 0 ->
  run ls (boot limit) = Some s ->
  Forall (fun p => p = Queued) (pool s)
  /\ active_count (manager s) = 0
  /\ queue_size (manager s) = length (pool s).
Proof.
  intros Hlimit.
  assert (Hgen : forall ls s0 s1,
             concurrent_limit (manager s0) = limit ->
             active_requests (manager s0) = 0 ->
             Forall (fun p => p = Queued) (pool s0) ->
             length (request_queue (manager s0)) = length (pool s0) ->
             run ls s0 = Some s1 ->
             Forall (fun p => p = Queued) (pool s1)
             /\ active_requests (manager s1) = 0
             /\ length (request_queue (manager s1)) = length (pool s1)).
  { clear ls s. induction ls as [| l ls IH]; intros s0 s1 Hlim Hzero Hall Hlen Hrun;
      cbn in Hrun.
    - injection Hrun as <-. repeat split; assumption.
    - destruct (step l s0) as [s2 |] eqn:Hstep; [| discriminate].
      destruct s0 as [m ps]. cbn [manager pool] in *.
      assert (Hno : forall u p, ps !! u = Some p -> p = Queued).
      { intros u p Hu. rewrite Forall_forall in Hall. apply Hall.
        eapply list_elem_of_lookup_2, Hu. }
      destruct l as [| u | u ok | u]; cbn [step manager pool] in Hstep.
      + unfold acquire_slot in Hstep.
        assert (Elt : (active_requests m <? concurrent_limit m) = false)
          by (apply Z.ltb_ge; lia).
        rewrite Elt in Hstep. injection Hstep as <-.
        eapply IH; [| | | | exact Hrun]; cbn.
        * exact Hlim.
        * exact Hzero.
        * apply Forall_app. split; [exact Hall | repeat constructor].
        * rewrite !length_app, Hlen. reflexivity.
      + destruct (ps !! u) as [p |] eqn:Hu; [| discriminate].
        rewrite (Hno u p Hu) in Hstep. discriminate.
      + destruct (ps !! u) as [p |] eqn:Hu; [| discriminate].
        rewrite (Hno u p Hu) in Hstep. discriminate.
      + destruct (ps !! u) as [p |] eqn:Hu; [| discriminate].
        rewrite (Hno u p Hu) in Hstep. discriminate. }
  intros Hrun. unfold active_count, queue_size.
  eapply Hgen; [| | | | exact Hrun]; cbn; (reflexivity || constructor).
Qed.

Lemma step_keeps_done (l : label) (s s' : system) (t : nat) (ok : bool) :
  consistent s ->
  step l s = Some s' ->
  pool s !! t = Some (Done ok) ->
  pool s' !! t = Some (Done ok).
Proof.
  intros [_ Hq _] Hstep Ht. destruct s as [m ps]. cbn [manager pool] in *.
  assert (Hother : forall u p new, ps !! u = Some p -> is_done p = false ->
                                   <[u := new]> ps !! t = Some (Done ok)).
  { intros u p new Hu Hp. rewrite list_lookup_insert_ne; [exact Ht |].
    intros ->. rewrite Ht in Hu. injection Hu as <-. discriminate. }
  destruct l as [| u | u ok' | u]; cbn [step manager pool] in Hstep.
  - destruct (acquire_slot m (length ps)) as [m' can_execute].
    injection Hstep as <-. cbn [pool].
    rewrite lookup_app_l; [exact Ht | eapply lookup_lt_Some; exact Ht].
  - destruct (ps !! u) as [[| | | ok1 | ok1] |] eqn:Hu; try discriminate.
    injection Hstep as <-. cbn [pool]. eapply Hother; [exact Hu | reflexivity].
  - destruct (ps !! u) as [[| | | ok1 | ok1] |] eqn:Hu; try discriminate.
    injection Hstep as <-. cbn [pool]. eapply Hother; [exact Hu | reflexivity].
  - destruct (ps !! u) as [[| | | ok1 | ok1] |] eqn:Hu; try discriminate.
    assert (Ht1 : <[u := Done ok1]> ps !! t = Some (Done ok))
      by (eapply Hother; [exact Hu | reflexivity]).
    unfold _release_slot in Hstep.
    destruct (request_queue m) as [| n rest]; injection Hstep as <-; cbn [pool];
      [exact Ht1 |].
    apply Forall_cons in Hq. destruct Hq as [Hn _].
    rewrite list_lookup_insert_ne; [exact Ht1 |].
    intros ->. rewrite Ht in Hn. discriminate.
Qed.

(** X6: a call that is done stays done, with the outcome it had: no later
    step of any schedule runs it again or changes how it ended. *)
Theorem done_call_stays_done
    (limit : Z) (before after : list label) (s s' : system) (t : nat) (ok : bool) :
  run before (boot limit) = Some s ->
  run after s = Some s' ->
  pool s !! t = Some (Done ok) ->
  pool s' !! t = Some (Done ok).
Proof.
  intros Hbefore Hafter.
  pose proof (run_consistent before _ _ (boot_consistent limit) Hbefore) as Hc.
  clear Hbefore. revert s Hc Hafter.
  induction after as [| l after IH]; intros s Hc Hafter Ht; cbn in Hafter.
  - injection Hafter as <-. exact Ht.
  - destruct (step l s) as [s1 |] eqn:Hstep; [| discriminate].
    eapply IH; [| exact Hafter |].
    + eapply step_consistent; eassumption.
    + eapply step_keeps_done; eassumption.
Qed.

(** ** More on the normaliser and the walk *)

(** X11: normalising twice is normalising once. *)
Theorem normalize_idempotent (py_format : pyval -> string) (response : pyval) :
  normalize_okta_response py_format (normalize_okta_response py_format response)
  = normalize_okta_response py_format response.
Proof.
  destruct response as [| b | z | s | l | l | e | attrs]; try reflexivity.
  destruct l as [| a [| b [| c [| d l]]]]; reflexivity.
Qed.

Lemma valid_items_app (l1 l2 : list pyval) :
  valid_items (l1 ++ l2) = valid_items l1 ++ valid_items l2.
Proof. apply List.filter_app. Qed.

Lemma valid_items_valid (l : list pyval) :
  Forall (fun r => truthy r = true /\ py_hasattr r "as_dict" = true) (valid_items l).
Proof.
  apply Forall_forall. intros r Hr. apply list_elem_of_In in Hr.
  unfold valid_items in Hr. apply List.filter_In in Hr. destruct Hr as [_ Hr].
  apply andb_prop in Hr. exact Hr.
Qed.

Section WalkerMore.

Context {St : Type} (ops : cursor St).
Variable max_pages : Z.

(** The loop only ever appends valid items to what it was given. *)
Lemma walk_accumulates (resp : response) (fuel : nat) :
  forall (f : frame) (w : world St) (f' : frame) (w' : world St),
    walk ops fuel max_pages resp f w = Some (LoopExit f', w') ->
    exists fetched, all_results f' = all_results f ++ valid_items fetched.
Proof.
  assert (Hsame : forall f0 f1 : frame,
             all_results f1 = all_results f0 ->
             exists fetched, all_results f1 = all_results f0 ++ valid_items fetched).
  { intros f0 f1 Heq. exists []. cbn. rewrite app_nil_r. exact Heq. }
  assert (Hexc : forall e (f0 f1 f' : frame) (w0 w' : world St),
             all_results f1 = all_results f0 ->
             except_Exception e f1 w0 = Some (LoopExit f', w') ->
             exists fetched, all_results f' = all_results f0 ++ valid_items fetched).
  { intros e f0 f1 f' w0 w' Heq Hex. apply except_Exception_inv in Hex.
    destruct Hex as [_ Hf]. rewrite (Hf f' eq_refl). apply Hsame, Heq. }
  induction fuel as [| fuel IH]; intros f w f' w' H; [discriminate |].
  cbn [walk] in H.
  destruct (page_count f <? max_pages); cbn [negb] in H;
    [| injection H as <- <-; apply Hsame; reflexivity].
  destruct (resp_truthy resp); cbn [negb] in H;
    [| injection H as <- <-; apply Hsame; reflexivity].
  destruct (resp_hasattr resp "has_next"); cbn [negb] in H;
    [| injection H as <- <-; apply Hsame; reflexivity].
  destruct (call_has_next ops resp w) as [[more | e] w1];
    [| eapply Hexc; [| exact H]; reflexivity].
  destruct (truthy more); cbn [negb] in H;
    [| injection H as <- <-; apply Hsame; reflexivity].
  destruct (call_next ops resp w1) as [[raw | e] w2];
    [| eapply Hexc; [| exact H]; reflexivity].
  destruct (py_unpack2 raw) as [[next_users next_err] | e];
    [| eapply Hexc; [| exact H]; reflexivity].
  destruct (truthy next_err); [injection H as <- <-; apply Hsame; reflexivity |].
  destruct (py_iter next_users) as [users | e];
    [| eapply Hexc; [| exact H]; reflexivity].
  apply IH in H. destruct H as [fetched Hf]. cbn [all_results] in Hf.
  exists (users ++ fetched). rewrite Hf, valid_items_app, app_assoc. reflexivity.
Qed.

(** X8: when the initial error is falsy, whatever the walk returns is a
    list whose every item is truthy and has an [as_dict] attribute; its
    error slot is [None] and its response is the one it was given. *)
Theorem paginate_returns_only_valid_items
    (fuel : nat) (initial_results : pyval) (initial_resp : response)
    (initial_err : pyval) (w : world St)
    (results : pyval) (resp : response) (err : pyval) (pages : Z) (w' : world St) :
  truthy initial_err = false ->
  paginate_okta_response ops fuel max_pages initial_results initial_resp
    initial_err w = Some (Ret (results, resp, err, pages), w') ->
  exists items,
    results = PList items
    /\ Forall (fun r => truthy r = true /\ py_hasattr r "as_dict" = true) items
    /\ err = PNone
    /\ resp = initial_resp.
Proof.
  intros Herr. unfold paginate_okta_response. rewrite Herr.
  destruct (py_iter initial_results) as [items0 | e]; [| discriminate].
  destruct (walk ops fuel max_pages initial_resp _ w) as [[[f' | e] w2] |] eqn:Hw;
    try discriminate.
  intros [= <- <- <- <- <-].
  destruct (walk_accumulates _ _ _ _ _ _ Hw) as [fetched Hf]. cbn [all_results] in Hf.
  exists (all_results f'). split; [reflexivity |]. split; [| split; reflexivity].
  rewrite Hf, <- valid_items_app. apply valid_items_valid.
Qed.

(** What the loop has accumulated when it is left: what it was given,
    then the valid items of every page fetched without error, in the order
    of the fetches. *)
Lemma walk_collects (resp : response) (fuel : nat) :
  forall (f : frame) (w : world St) (f' : frame) (w' : world St),
    walk ops fuel max_pages resp f w = Some (LoopExit f', w') ->
    exists evs,
      trace w' = trace w ++ evs
      /\ all_results f' = all_results f ++ valid_items (fetched_items evs).
Proof.
  assert (Hnone : forall (f0 f1 : frame) (w0 : world St),
             all_results f1 = all_results f0 ->
             exists evs,
               trace w0 = trace w0 ++ evs
               /\ all_results f1 = all_results f0 ++ valid_items (fetched_items evs)).
  { intros f0 f1 w0 Heq. exists []. cbn. rewrite !app_nil_r. split; [reflexivity | exact Heq]. }
  induction fuel as [| fuel IH]; intros f w f' w' H; [discriminate |].
  cbn [walk] in H.
  destruct (page_count f <? max_pages); cbn [negb] in H;
    [| injection H as <- <-; apply Hnone; reflexivity].
  destruct (resp_truthy resp); cbn [negb] in H;
    [| injection H as <- <-; apply Hnone; reflexivity].
  destruct (resp_hasattr resp "has_next"); cbn [negb] in H;
    [| injection H as <- <-; apply Hnone; reflexivity].
  destruct resp as [v |].
  { cbn [call_has_next] in H. apply except_Exception_inv in H.
    destruct H as [-> Hf]. rewrite (Hf f' eq_refl). apply Hnone. reflexivity. }
  cbn [call_has_next call_next] in H.
  destruct (has_next ops (cur w)) as [[more | e] s1].
  2:{ apply except_Exception_inv in H. destruct H as [-> Hf].
      rewrite (Hf f' eq_refl). exists [EvHasNext (Raise e)]. cbn.
      rewrite app_nil_r. split; reflexivity. }
  destruct (truthy more); cbn [negb] in H.
  2:{ injection H as <- <-. exists [EvHasNext (Ret more)]. cbn.
      rewrite app_nil_r. split; reflexivity. }
  cbn [cur trace] in H.
  destruct (next ops s1) as [nx s2].
  assert (Hstop : forall (f1 : frame) (w2 : world St),
             page_items (EvNext nx) = [] ->
             all_results f1 = all_results f ->
             trace w2 = (trace w ++ [EvHasNext (Ret more)]) ++ [EvNext nx] ->
             w' = w2 -> f' = f1 ->
             exists evs,
               trace w' = trace w ++ evs
               /\ all_results f' = all_results f ++ valid_items (fetched_items evs)).
  { intros f1 w2 Hitems Hall Htr -> ->. exists [EvHasNext (Ret more); EvNext nx].
    rewrite Htr, <- app_assoc. split; [reflexivity |].
    unfold fetched_items. cbn [flat_map page_items app]. fold (page_items (EvNext nx)).
    rewrite Hitems. cbn. rewrite app_nil_r. exact Hall. }
  destruct nx as [raw | e].
  2:{ apply except_Exception_inv in H. destruct H as [Hw Hf].
      eapply Hstop; [reflexivity | | | exact Hw | exact (Hf f' eq_refl)]; reflexivity. }
  destruct (py_unpack2 raw) as [[next_users next_err] | e] eqn:Eun.
  2:{ apply except_Exception_inv in H. destruct H as [Hw Hf].
      eapply Hstop; [cbn; rewrite Eun; reflexivity | | | exact Hw | exact (Hf f' eq_refl)];
        reflexivity. }
  destruct (truthy next_err) eqn:Eerr.
  { injection H as Hf Hw.
    refine (Hstop _ _ _ _ _ (eq_sym Hw) (eq_sym Hf));
      [cbn; rewrite Eun, Eerr; reflexivity | reflexivity | reflexivity]. }
  destruct (py_iter next_users) as [users | e] eqn:Eit.
  2:{ apply except_Exception_inv in H. destruct H as [Hw Hf].
      eapply Hstop;
        [cbn; rewrite Eun, Eerr, Eit; reflexivity | | | exact Hw | exact (Hf f' eq_refl)];
        reflexivity. }
  clear Hstop. apply IH in H. destruct H as (evs & Htr & Hall).
  cbn [page_count all_results trace] in *.
  exists (EvHasNext (Ret more) :: EvNext (Ret raw) :: evs). split.
  - rewrite Htr, <- !app_assoc. reflexivity.
  - assert (Hpage : page_items (EvNext (Ret raw)) = users)
      by (cbn; rewrite Eun, Eerr, Eit; reflexivity).
    unfold fetched_items in *.
    change (flat_map page_items (EvHasNext (Ret more) :: EvNext (Ret raw) :: evs))
      with (page_items (EvNext (Ret raw)) ++ flat_map page_items evs).
    rewrite Hpage, Hall, valid_items_app, app_assoc. reflexivity.
Qed.

(** X9: nothing accumulated is lost or reordered.  When the initial error
    is falsy the returned list is the valid initial items followed by the
    valid items of every page that the walk fetched without error, page
    after page, each in its order, and nothing else. *)
Theorem paginate_keeps_initial_items
    (fuel : nat) (initial_results : pyval) (initial_resp : response)
    (initial_err : pyval) (items0 : list pyval) (w : world St)
    (results : pyval) (resp : response) (err : pyval) (pages : Z) (w' : world St) :
  truthy initial_err = false ->
  py_iter initial_results = Ret items0 ->
  paginate_okta_response ops fuel max_pages initial_results initial_resp
    initial_err w = Some (Ret (results, resp, err, pages), w') ->
  exists evs,
    trace w' = trace w ++ evs
    /\ results = PList (valid_items items0 ++ valid_items (fetched_items evs)).
Proof.
  intros Herr Hit. unfold paginate_okta_response. rewrite Herr, Hit.
  destruct (walk ops fuel max_pages initial_resp _ w) as [[[f' | e] w2] |] eqn:Hw;
    try discriminate.
  intros [= <- <- <- <- <-].
  destruct (walk_collects _ _ _ _ _ _ Hw) as (evs & Htr & Hall).
  cbn [all_results] in Hall.
  exists evs. split; [exact Htr |]. rewrite Hall. reflexivity.
Qed.

(** X10: the page count returned is one more than the number of [next()]
    calls the walk made, the failed ones included. *)
Theorem paginate_page_count_is_fetches_plus_one
    (fuel : nat) (initial_results : pyval) (initial_resp : response)
    (initial_err : pyval) (w : world St)
    (results : pyval) (resp : response) (err : pyval) (pages : Z) (w' : world St) :
  paginate_okta_response ops fuel max_pages initial_results initial_resp
    initial_err w = Some (Ret (results, resp, err, pages), w') ->
  exists evs,
    trace w' = trace w ++ evs
    /\ pages = 1 + Z.of_nat (count_next evs).
Proof.
  unfold paginate_okta_response.
  destruct (truthy initial_err).
  { intros [= <- <- <- <- <-]. exists []. rewrite app_nil_r. split; reflexivity. }
  destruct (py_iter initial_results) as [items0 | e]; [| discriminate].
  destruct (walk ops fuel max_pages initial_resp _ w) as [[[f' | e] w2] |] eqn:Hw;
    try discriminate.
  intros [= <- <- <- <- <-].
  destruct (walk_inv ops max_pages _ _ _ _ _ _ Hw) as (evs & Htr & _ & Hpc & _).
  exists evs. split; [exact Htr |]. rewrite (Hpc f' eq_refl). reflexivity.
Qed.

(** X7: with a page limit of one or less, such as the default
    [PAGINATION_LIMIT] of 1, the walk never touches the cursor: it returns
    the valid initial items with a page count of one. *)
Theorem paginate_limit_one_fetches_nothing
    (fuel : nat) (initial_results : pyval) (initial_resp : response)
    (initial_err : pyval) (items0 : list pyval) (w : world St) :
  max_pages <= 1 ->
  (1 <= fuel)%nat ->
  truthy initial_err = false ->
  py_iter initial_results = Ret items0 ->
  paginate_okta_response ops fuel max_pages initial_results initial_resp
    initial_err w
  = Some (Ret (PList (valid_items items0), initial_resp, PNone, 1), w).
Proof.
  intros Hmax Hfuel Herr Hit. unfold paginate_okta_response. rewrite Herr, Hit.
  destruct fuel as [| fuel]; [lia |]. cbn [walk page_count].
  assert (Elt : (1 <? max_pages) = false) by (apply Z.ltb_ge; lia).
  rewrite Elt. reflexivity.
Qed.

End WalkerMore.

(** ** The error helpers *)

(** X12: normalising a result keeps its verdict: the dictionary made from
    a result is an error for [is_error_result] exactly when the result
    was one. *)
Theorem normalize_result_keeps_verdict (r : result) :
  is_error_result (ResDict (normalize_result r)) = is_error_result r.
Proof.
  destruct r as [d | v]; [reflexivity |].
  unfold normalize_result, is_error_result.
  destruct (as_Exception (ResValue v)) as [e |].
  - rewrite lookup_insert_eq. reflexivity.
  - assert (Hplain : forall x : pyval,
               bool_decide (is_Some ((<["status" := PStr "success"]>
                                        (<["data" := x]> ∅) : gmap string pyval)
                                     !! "errorCode")) = false).
    { intros x. rewrite !lookup_insert_ne by discriminate. rewrite lookup_empty.
      apply bool_decide_eq_false. intros [y Hy]. discriminate. }
    destruct v; apply Hplain.
Qed.

Section ErrorHandlingFacts.

Variable py_format : pyval -> string.

(** X13: [handle_okta_result] hands back, untouched, every result that is
    no error; for an error it returns a single text content of type
    [text] whose text opens with the heading and the name of the tool. *)
Theorem handle_okta_result_cases (r : result) (tool_name : string) :
  if is_error_result r then
    exists body,
      handle_okta_result py_format r tool_name
      = ErrorResponse [ {| type := "text";
                           text := error_heading ++ tool_name ++ body |} ]
  else handle_okta_result py_format r tool_name = Unchanged r.
Proof.
  unfold handle_okta_result.
  destruct (is_error_result r) eqn:Herr; [| reflexivity].
  destruct (as_Exception r) as [e |] eqn:Hexc.
  - eexists. unfold format_error_response. reflexivity.
  - destruct r as [d | v].
    + eexists. unfold format_error_response. reflexivity.
    + unfold is_error_result in Herr. rewrite Hexc in Herr. discriminate.
Qed.

(** X14: a response tuple of a wrong length reaches the user of a tool as
    an error text.  Its error slot after normalisation is truthy, and
    [handle_okta_result] turns it into the response that
    [format_error_response] builds for a [ValueError] with the tuple's
    text. *)
Theorem malformed_response_becomes_error_text
    (l : list pyval) (tool_name : string) :
  length l <> 2%nat ->
  length l <> 3%nat ->
  truthy (error_slot (normalize_okta_response py_format (PTuple l))) = true
  /\ handle_okta_result py_format
       (ResValue (error_slot (normalize_okta_response py_format (PTuple l))))
       tool_name
     = ErrorResponse
         (format_error_response
            (ValueError ("Unexpected response format: " ++ py_format (PTuple l)))
            tool_name).
Proof.
  intros H2 H3. unfold normalize_okta_response.
  apply Nat.eqb_neq in H2, H3. rewrite H2, H3. split; reflexivity.
Qed.

End ErrorHandlingFacts.

(** ** The client wrapper *)

Section RateLimitFacts.

Context {T : Type}.
Variable later : T -> T -> bool.
Variable plus : T -> Z -> T.
Context {OktaClient : Type}.
Variable new_OktaClient : OktaConfig -> outcome OktaClient.

(** X15: what a check of the rate limit leaves behind.  After the answer
    [False] the endpoint is not tracked any more, so that every later
    check answers [False] whatever the clock says, until the limit is
    updated; the answer [True] changes nothing; and no other endpoint is
    touched. *)
Theorem is_rate_limited_effect
    (self : @OktaMcpClient T OktaClient) (endpoint : string) (now : T) :
  (fst (is_rate_limited later self endpoint now) = false ->
   rate_limits (snd (is_rate_limited later self endpoint now)) !! endpoint = None
   /\ forall now',
        is_rate_limited later (snd (is_rate_limited later self endpoint now))
          endpoint now'
        = (false, snd (is_rate_limited later self endpoint now)))
  /\ (fst (is_rate_limited later self endpoint now) = true ->
      snd (is_rate_limited later self endpoint now) = self)
  /\ (forall other,
         other <> endpoint ->
         rate_limits (snd (is_rate_limited later self endpoint now)) !! other
         = rate_limits self !! other).
Proof.
  unfold is_rate_limited.
  destruct (rate_limits self !! endpoint) as [limit |] eqn:Hlook.
  - destruct (later now limit); cbn [fst snd rate_limits].
    + split; [| split].
      * intros _. split; [apply lookup_delete_eq |].
        intros now'. rewrite lookup_delete_eq. reflexivity.
      * discriminate.
      * intros other Hne. apply lookup_delete_ne. congruence.
    + split; [discriminate | split; [reflexivity | reflexivity]].
  - cbn [fst snd]. split; [| split].
    + intros _. split; [exact Hlook |]. intros now'. rewrite Hlook. reflexivity.
    + discriminate.
    + reflexivity.
Qed.

(** X16: a recorded limit is found again.  After [update_rate_limit] the
    endpoint is limited at a reading of the clock exactly when that
    reading is not later than the recorded one, and the answers for all
    other endpoints are what they were. *)
Theorem update_then_check
    (self : @OktaMcpClient T OktaClient) (endpoint : string) (reset_seconds : Z) (t0 now : T) :
  fst (is_rate_limited later
         (update_rate_limit plus self endpoint reset_seconds t0) endpoint now)
  = negb (later now (plus t0 reset_seconds))
  /\ forall other,
       other <> endpoint ->
       fst (is_rate_limited later
              (update_rate_limit plus self endpoint reset_seconds t0) other now)
       = fst (is_rate_limited later self other now).
Proof.
  unfold is_rate_limited, update_rate_limit. cbn [rate_limits]. split.
  - rewrite lookup_insert_eq. destruct (later now (plus t0 reset_seconds)); reflexivity.
  - intros other Hne. rewrite lookup_insert_ne by congruence.
    destruct (rate_limits self !! other) as [limit |]; [| reflexivity].
    destruct (later now limit); reflexivity.
Qed.

(** X17: without its configuration the wrapper refuses the call.  When no
    client was given or made yet and either environment variable is unset
    or empty, [execute_api_call] raises [ValueError] before it routes the
    call.  When both are set it hands them, with a request timeout of 30
    seconds and one retry, to the constructor of the SDK: if that raises,
    the call raises the same exception; if it returns a client, the
    wrapper keeps it, is marked initialised, keeps its rate limits, and
    routes the call through the request manager exactly when it has
    one. *)
Theorem execute_api_call_needs_configuration
    (env : gmap string string) (self : @OktaMcpClient T OktaClient) :
  _client_initialized self = false ->
  if unset (env !! "OKTA_CLIENT_ORGURL") || unset (env !! "OKTA_API_TOKEN") then
    exists msg, execute_api_call new_OktaClient env self = Raise (ValueError msg)
  else
    exists org_url api_token,
      env !! "OKTA_CLIENT_ORGURL" = Some org_url
      /\ env !! "OKTA_API_TOKEN" = Some api_token
      /\ match new_OktaClient {| orgUrl := org_url; token := api_token;
                                 requestTimeout := 30; maxRetries := 1 |} with
         | Raise e => execute_api_call new_OktaClient env self = Raise e
         | Ret c =>
             execute_api_call new_OktaClient env self
             = Ret (match request_manager self with
                    | Some m => ViaRequestManager m
                    | None => Directly
                    end,
                    {| _client := Some c;
                       _client_initialized := true;
                       rate_limits := rate_limits self;
                       request_manager := request_manager self |})
         end.
Proof.
  intros Hinit. unfold execute_api_call, client. rewrite Hinit. cbn [negb].
  unfold _initialize_client.
  destruct (env !! "OKTA_CLIENT_ORGURL") as [org_url |] eqn:Horg;
    destruct (env !! "OKTA_API_TOKEN") as [api_token |] eqn:Htok;
    cbn [unset default from_option id];
    try (rewrite ?orb_true_r; cbn [orb]; eexists; reflexivity).
  unfold create_okta_client.
  destruct (String.eqb org_url "" || String.eqb api_token ""); [eexists; reflexivity |].
  exists org_url, api_token. split; [reflexivity |]. split; [reflexivity |].
  destruct (new_OktaClient _) as [c | e]; [| reflexivity].
  cbn [request_manager]. destruct (request_manager self); reflexivity.
Qed.

(** X18: the client is made once.  After a call that did not raise, every
    later call, whatever the environment then holds, takes the same route
    and leaves the wrapper as it is. *)
Theorem execute_api_call_initialises_once
    (env env' : gmap string string) (self self' : @OktaMcpClient T OktaClient) (r : route) :
  execute_api_call new_OktaClient env self = Ret (r, self') ->
  execute_api_call new_OktaClient env' self' = Ret (r, self').
Proof.
  unfold execute_api_call, client.
  destruct (_client_initialized self) eqn:Hinit; cbn [negb].
  - destruct (request_manager self) as [m |] eqn:Hm; intros [= <- <-];
      rewrite Hinit; cbn [negb]; rewrite Hm; reflexivity.
  - unfold _initialize_client.
    destruct (unset (env !! "OKTA_CLIENT_ORGURL") || unset (env !! "OKTA_API_TOKEN"));
      [discriminate |].
    destruct (create_okta_client _ _) as [c | e]; [| discriminate].
    cbn [request_manager].
    destruct (request_manager self) as [m |] eqn:Hm; intros [= <- <-];
      cbn [_client_initialized negb request_manager]; reflexivity.
Qed.

End RateLimitFacts.

(** ** Concrete instances of the further properties *)

Lemma release_promotes_earliest_waiting_witness :
  run (firstn 6 five_calls) (boot 2)
  = Some {| manager := {| concurrent_limit := 2; active_requests := 2;
                          request_queue := [2%nat; 3%nat; 4%nat] |};
            pool := [Finished true; Running; Queued; Queued; Queued] |}
  /\ forall t' : nat,
       [Finished true; Running; Queued; Queued; Queued] !! t' = Some Queued ->
       (2 <= t')%nat.
Proof.
  split; [reflexivity |].
  exact (release_promotes_earliest_waiting 2 (firstn 6 five_calls)
           {| manager := {| concurrent_limit := 2; active_requests := 2;
                            request_queue := [2%nat; 3%nat; 4%nat] |};
              pool := [Finished true; Running; Queued; Queued; Queued] |}
           {| manager := {| concurrent_limit := 2; active_requests := 2;
                            request_queue := [3%nat; 4%nat] |};
              pool := [Done true; Running; Promoted; Queued; Queued] |}
           0%nat 2%nat eq_refl eq_refl eq_refl eq_refl).
Defined.

Lemma queue_only_at_full_load_witness :
  0 <= 2
  /\ (0 < queue_size {| concurrent_limit := 2; active_requests := 2;
                        request_queue := [3%nat; 4%nat] |})%nat
  /\ active_count {| concurrent_limit := 2; active_requests := 2;
                     request_queue := [3%nat; 4%nat] |} = 2.
Proof.
  split; [lia |]. split; [cbn; lia |].
  apply (queue_only_at_full_load 2 (firstn 8 five_calls)
           {| manager := {| concurrent_limit := 2; active_requests := 2;
                            request_queue := [3%nat; 4%nat] |};
              pool := [Done true; Running; Running; Queued; Queued] |});
    [lia | reflexivity | cbn; lia].
Defined.

Lemma every_call_accounted_witness :
  run (firstn 8 five_calls) (boot 2)
  = Some {| manager := {| concurrent_limit := 2; active_requests := 2;
                          request_queue := [3%nat; 4%nat] |};
            pool := [Done true; Running; Running; Queued; Queued] |}
  /\ Z.of_nat (length [Done true; Running; Running; Queued; Queued])
     = 2 + Z.of_nat 2 + Z.of_nat (completed [Done true; Running; Running; Queued; Queued]).
Proof.
  split; [reflexivity |].
  exact (proj1 (every_call_accounted 2 (firstn 8 five_calls)
                  {| manager := {| concurrent_limit := 2; active_requests := 2;
                                   request_queue := [3%nat; 4%nat] |};
                     pool := [Done true; Running; Running; Queued; Queued] |}
                  eq_refl)).
Defined.

Lemma every_call_can_complete_witness :
  1 <= 2
  /\ exists ls' s',
       run ls' {| manager := {| concurrent_limit := 2; active_requests := 2;
                                request_queue := [3%nat; 4%nat] |};
                  pool := [Done true; Running; Running; Queued; Queued] |}
       = Some s'
       /\ forallb is_done (pool s') = true
       /\ length (pool s') = 5%nat
       /\ active_count (manager s') = 0
       /\ queue_size (manager s') = 0%nat.
Proof.
  split; [lia |].
  apply (every_call_can_complete 2 (firstn 8 five_calls)
           {| manager := {| concurrent_limit := 2; active_requests := 2;
                            request_queue := [3%nat; 4%nat] |};
              pool := [Done true; Running; Running; Queued; Queued] |});
    [lia | reflexivity].
Defined.

Lemma nonpositive_limit_starves_witness :
  0 <= 0
  /\ run [Submit; Submit] (boot 0)
     = Some {| manager := {| concurrent_limit := 0; active_requests := 0;
                             request_queue := [0%nat; 1%nat] |};
               pool := [Queued; Queued] |}
  /\ Forall (fun p => p = Queued) [Queued; Queued].
Proof.
  split; [lia |]. split; [reflexivity |].
  exact (proj1 (nonpositive_limit_starves 0 [Submit; Submit]
                  {| manager := {| concurrent_limit := 0; active_requests := 0;
                                   request_queue := [0%nat; 1%nat] |};
                     pool := [Queued; Queued] |}
                  ltac:(lia) eq_refl)).
Defined.

Lemma done_call_stays_done_witness :
  run (firstn 8 five_calls) (boot 2)
  = Some {| manager := {| concurrent_limit := 2; active_requests := 2;
                          request_queue := [3%nat; 4%nat] |};
            pool := [Done true; Running; Running; Queued; Queued] |}
  /\ [Done true; Done false; Done true; Done true; Done true] !! 0%nat
     = Some (Done true).
Proof.
  split; [reflexivity |].
  exact (done_call_stays_done 2 (firstn 8 five_calls) (skipn 8 five_calls)
           {| manager := {| concurrent_limit := 2; active_requests := 2;
                            request_queue := [3%nat; 4%nat] |};
              pool := [Done true; Running; Running; Queued; Queued] |}
           {| manager := {| concurrent_limit := 2; active_requests := 0;
                            request_queue := [] |};
              pool := [Done true; Done false; Done true; Done true; Done true] |}
           0%nat true eq_refl eq_refl eq_refl).
Defined.

Lemma two_page_walk :
  paginate_okta_response scripted 3 3 (PList [item 1; PNone]) RespPaged PNone
    (start [PageItems [PInt 5; item 2]])
  = Some (Ret (PList [item 1; item 2], RespPaged, PNone, 2),
          {| cur := [];
             trace := [EvHasNext (Ret (PBool true));
                       EvNext (Ret (PTuple [PList [PInt 5; item 2]; PNone]));
                       EvHasNext (Ret (PBool false))] |}).
Proof. vm_compute. reflexivity. Qed.

Lemma paginate_returns_only_valid_items_witness :
  truthy PNone = false
  /\ exists items,
       PList [item 1; item 2] = PList items
       /\ Forall (fun r => truthy r = true /\ py_hasattr r "as_dict" = true) items
       /\ PNone = PNone
       /\ RespPaged = RespPaged.
Proof.
  split; [reflexivity |].
  exact (paginate_returns_only_valid_items scripted 3 3%nat
           (PList [item 1; PNone]) RespPaged PNone
           (start [PageItems [PInt 5; item 2]]) _ _ _ _ _
           eq_refl two_page_walk).
Defined.

Lemma paginate_keeps_initial_items_witness :
  py_iter (PList [item 1; PNone]) = Ret [item 1; PNone]
  /\ exists evs,
       [EvHasNext (Ret (PBool true));
        EvNext (Ret (PTuple [PList [PInt 5; item 2]; PNone]));
        EvHasNext (Ret (PBool false))]
       = trace (start [PageItems [PInt 5; item 2]]) ++ evs
       /\ PList [item 1; item 2]
          = PList (valid_items [item 1; PNone] ++ valid_items (fetched_items evs)).
Proof.
  split; [reflexivity |].
  exact (paginate_keeps_initial_items scripted 3 3%nat
           (PList [item 1; PNone]) RespPaged PNone [item 1; PNone]
           (start [PageItems [PInt 5; item 2]]) _ _ _ _ _
           eq_refl eq_refl two_page_walk).
Defined.

Lemma paginate_page_count_is_fetches_plus_one_witness :
  exists evs,
    [EvHasNext (Ret (PBool true));
     EvNext (Ret (PTuple [PList [PInt 5; item 2]; PNone]));
     EvHasNext (Ret (PBool false))]
    = trace (start [PageItems [PInt 5; item 2]]) ++ evs
    /\ 2 = 1 + Z.of_nat (count_next evs).
Proof.
  exact (paginate_page_count_is_fetches_plus_one scripted 3 3%nat
           (PList [item 1; PNone]) RespPaged PNone
           (start [PageItems [PInt 5; item 2]]) _ _ _ _ _
           two_page_walk).
Defined.

Lemma paginate_limit_one_fetches_nothing_witness :
  1 <= 1
  /\ (1 <= 4)%nat
  /\ paginate_okta_response scripted 4 1 (PList [item 1; PNone]) RespPaged PNone
       (start third_page_fails)
     = Some (Ret (PList (valid_items [item 1; PNone]), RespPaged, PNone, 1),
             start third_page_fails).
Proof.
  split; [lia |]. split; [lia |].
  apply (paginate_limit_one_fetches_nothing scripted 1 4%nat);
    [lia | lia | reflexivity | reflexivity].
Defined.

Lemma malformed_response_becomes_error_text_witness :
  length [PInt 1] <> 2%nat
  /\ length [PInt 1] <> 3%nat
  /\ handle_okta_result (fun _ => "(1,)")
       (ResValue (error_slot (normalize_okta_response (fun _ => "(1,)")
                                (PTuple [PInt 1]))))
       "list_users"
     = ErrorResponse
         (format_error_response
            (ValueError ("Unexpected response format: " ++ "(1,)")) "list_users").
Proof.
  split; [discriminate |]. split; [discriminate |].
  apply (malformed_response_becomes_error_text (fun _ => "(1,)") [PInt 1]);
    discriminate.
Defined.

Lemma is_rate_limited_effect_witness :
  fst (is_rate_limited Z.gtb
         (update_rate_limit Z.add (new_client (OktaClient := OktaConfig) None None) "/api/v1/users" 30 100)
         "/api/v1/users" 131) = false
  /\ forall now' : Z,
       is_rate_limited Z.gtb
         (snd (is_rate_limited Z.gtb
                 (update_rate_limit Z.add (new_client (OktaClient := OktaConfig) None None) "/api/v1/users" 30 100)
                 "/api/v1/users" 131))
         "/api/v1/users" now'
       = (false,
          snd (is_rate_limited Z.gtb
                 (update_rate_limit Z.add (new_client (OktaClient := OktaConfig) None None) "/api/v1/users" 30 100)
                 "/api/v1/users" 131)).
Proof.
  assert (Hexpired :
            fst (is_rate_limited Z.gtb
                   (update_rate_limit Z.add (new_client (OktaClient := OktaConfig) None None) "/api/v1/users" 30 100)
                   "/api/v1/users" 131) = false) by (vm_compute; reflexivity).
  split; [exact Hexpired |].
  exact (proj2 (proj1 (is_rate_limited_effect Z.gtb
                         (update_rate_limit Z.add (new_client (OktaClient := OktaConfig) None None)
                            "/api/v1/users" 30 100)
                         "/api/v1/users" 131) Hexpired)).
Defined.

Lemma update_then_check_witness :
  fst (is_rate_limited Z.gtb
         (update_rate_limit Z.add (new_client (OktaClient := OktaConfig) None None) "/api/v1/users" 30 100)
         "/api/v1/users" 120)
  = negb (120 >? 100 + 30).
Proof.
  exact (proj1 (update_then_check Z.gtb Z.add (new_client (OktaClient := OktaConfig) None None)
                  "/api/v1/users" 30 100 120)).
Defined.

Lemma execute_api_call_needs_configuration_witness :
  _client_initialized (new_client (T := Z) (OktaClient := OktaConfig) None None) = false
  /\ (exists msg,
         execute_api_call https_only (<["OKTA_API_TOKEN" := "00abc"]> ∅)
           (new_client (T := Z) None None)
         = Raise (ValueError msg))
  /\ execute_api_call https_only
       (<["OKTA_CLIENT_ORGURL" := "http://example.okta.com"]>
          (<["OKTA_API_TOKEN" := "00abc"]> ∅))
       (new_client (T := Z) None None)
     = Raise (ValueError "orgUrl must start with https.").
Proof.
  split; [reflexivity |]. split.
  - exact (execute_api_call_needs_configuration https_only
             (<["OKTA_API_TOKEN" := "00abc"]> ∅)
             (new_client (T := Z) None None) eq_refl).
  - pose proof (execute_api_call_needs_configuration https_only
                  (<["OKTA_CLIENT_ORGURL" := "http://example.okta.com"]>
                     (<["OKTA_API_TOKEN" := "00abc"]> ∅))
                  (new_client (T := Z) None None) eq_refl) as Hcall.
    change (exists org_url api_token,
               Some "http://example.okta.com" = Some org_url
               /\ Some "00abc" = Some api_token
               /\ match https_only {| orgUrl := org_url; token := api_token;
                                      requestTimeout := 30; maxRetries := 1 |} with
                  | Raise e =>
                      execute_api_call https_only
                        (<["OKTA_CLIENT_ORGURL" := "http://example.okta.com"]>
                           (<["OKTA_API_TOKEN" := "00abc"]> ∅))
                        (new_client (T := Z) None None) = Raise e
                  | Ret c =>
                      execute_api_call https_only
                        (<["OKTA_CLIENT_ORGURL" := "http://example.okta.com"]>
                           (<["OKTA_API_TOKEN" := "00abc"]> ∅))
                        (new_client (T := Z) None None)
                      = Ret (Directly,
                             {| _client := Some c;
                                _client_initialized := true;
                                rate_limits := ∅;
                                request_manager := None |})
                  end) in Hcall.
    destruct Hcall as (org_url & api_token & Horg & Htok & Hcall).
    injection Horg as <-. injection Htok as <-. exact Hcall.
Defined.

Lemma execute_api_call_initialises_once_witness :
  execute_api_call https_only
    (<["OKTA_CLIENT_ORGURL" := "https://example.okta.com"]>
       (<["OKTA_API_TOKEN" := "00abc"]> ∅))
    (new_client (T := Z) None (Some (new_manager 15)))
  = Ret (ViaRequestManager (new_manager 15),
         {| _client := Some {| orgUrl := "https://example.okta.com"; token := "00abc";
                               requestTimeout := 30; maxRetries := 1 |};
            _client_initialized := true;
            rate_limits := ∅;
            request_manager := Some (new_manager 15) |})
  /\ execute_api_call https_only ∅
       {| _client := Some {| orgUrl := "https://example.okta.com"; token := "00abc";
                             requestTimeout := 30; maxRetries := 1 |};
          _client_initialized := true;
          rate_limits := (∅ : gmap string Z);
          request_manager := Some (new_manager 15) |}
     = Ret (ViaRequestManager (new_manager 15),
            {| _client := Some {| orgUrl := "https://example.okta.com"; token := "00abc";
                                  requestTimeout := 30; maxRetries := 1 |};
               _client_initialized := true;
               rate_limits := ∅;
               request_manager := Some (new_manager 15) |}).
Proof.
  assert (Hfirst :
            execute_api_call https_only
              (<["OKTA_CLIENT_ORGURL" := "https://example.okta.com"]>
                 (<["OKTA_API_TOKEN" := "00abc"]> ∅))
              (new_client (T := Z) None (Some (new_manager 15)))
            = Ret (ViaRequestManager (new_manager 15),
                   {| _client := Some {| orgUrl := "https://example.okta.com";
                                         token := "00abc";
                                         requestTimeout := 30; maxRetries := 1 |};
                      _client_initialized := true;
                      rate_limits := ∅;
                      request_manager := Some (new_manager 15) |}))
    by (vm_compute; reflexivity).
  split; [exact Hfirst |].
  exact (execute_api_call_initialises_once https_only _ ∅ _ _ _ Hfirst).
Defined.

(** Traces that [stops_first] refuses: a walk that makes no call although
    the budget allows a fetch, and a walk that fetches again after a page
    came back with an error. *)
Example stops_first_refuses :
  stops_first 2 [] = false
  /\ stops_first 2 [EvHasNext (Ret (PBool true));
                    EvNext (Ret (PTuple [PNone; PExc rate_limited]));
                    EvHasNext (Ret (PBool true));
                    EvNext (Ret (PTuple [PList []; PNone]))] = false.
Proof. split; reflexivity. Qed.
